(** * Primer_Pairs: a shallow embedding of the primer-selection core

    Sources embedded:
    - [src/Streamlit_Code/Primer_Pair_SL.py]: [calculate_nucleotide_frequencies],
      [calculate_diversity_score], [select_optimal_primers],
      [create_nucleotide_matrix], and the app code that splits the primer
      sheet into pools, drops excluded names and merges the selection;
    - [src/Streamlit_Code/Primer_Pair_SL_V2.py]: [optimal_primer_counts], the
      availability guard, the PuLP integer program of the exact selector,
      the pair assignment and [create_combined_excel].

    Python dicts (name -> sequence) are association lists in insertion
    order; [collections.Counter] is an association list in insertion order;
    Python floats used for scores are exact rationals [Q]; exceptions are
    the [Err] branch of a small result monad. *)

From Stdlib Require Import List String Ascii Bool Arith ZArith QArith Lia.
From Stdlib Require Import Qabs.
Import ListNotations.

Open Scope nat_scope.
Open Scope list_scope.

(** ** Python runtime: results and exceptions *)

Inductive py_error : Type :=
| IndexError
| KeyError
| StopIteration.

Inductive result (A : Type) : Type :=
| Ok : A -> result A
| Err : py_error -> result A.
Arguments Ok {A} _.
Arguments Err {A} _.

Definition bind {A B : Type} (r : result A) (k : A -> result B) : result B :=
  match r with
  | Ok a => k a
  | Err e => Err e
  end.

Notation "x <- r ;; k" := (bind r (fun x => k))
  (at level 61, r at next level, right associativity).

(** A Python dict [name -> value] in insertion order. *)
Definition dict (V : Type) := list (string * V).

Fixpoint dict_get {V : Type} (d : dict V) (k : string) : result V :=
  match d with
  | [] => Err KeyError
  | (k', v) :: d' => if String.eqb k k' then Ok v else dict_get d' k
  end.

Definition dict_keys {V : Type} (d : dict V) : list string := map fst d.
Definition dict_values {V : Type} (d : dict V) : list V := map snd d.

Definition chars (s : string) : list ascii := list_ascii_of_string s.

(** [sum(...)] over a generator: a left fold from [0]. *)
Definition py_sum (l : list Q) : Q := fold_left Qplus l 0%Q.

Module FrequencyModel.

(** ** [collections.Counter] over characters *)

Definition counter := list (ascii * nat).

(** [c[k] += 1]: an existing key is incremented in place, a new key is
    appended with count 1. *)
Fixpoint counter_incr (c : counter) (k : ascii) : counter :=
  match c with
  | [] => [(k, 1)]
  | (k', n) :: c' =>
      if Ascii.eqb k k' then (k', S n) :: c' else (k', n) :: counter_incr c' k
  end.

(** [c.get(k, 0)], also [c[k]] on a Counter (a missing key reads 0). *)
Fixpoint counter_get (c : counter) (k : ascii) : nat :=
  match c with
  | [] => 0
  | (k', n) :: c' => if Ascii.eqb k k' then n else counter_get c' k
  end.

Definition counter_values (c : counter) : list nat := map snd c.

Definition counter_mem (c : counter) (k : ascii) : bool :=
  existsb (fun kv => Ascii.eqb (fst kv) k) c.

(** [Counter.__add__]: keys of [self] first (sum, kept when positive),
    then keys only in [other] with a positive count. *)
Definition counter_add (self other : counter) : counter :=
  fold_left (fun acc kv =>
               let newcount := snd kv + counter_get other (fst kv) in
               if 0 <? newcount then acc ++ [(fst kv, newcount)] else acc)
            self []
  ++ filter (fun kv => negb (counter_mem self (fst kv)) && (0 <? snd kv)) other.

(** ** [calculate_nucleotide_frequencies] (Primer_Pair_SL.py, l. 15-20) *)

(** [for i, nucleotide in enumerate(seq): nucleotide_counts[i][nucleotide] += 1]:
    character [i] updates counter [i]; a character beyond the last counter
    raises [IndexError]. *)
Fixpoint add_sequence (tbl : list counter) (seq : list ascii) {struct seq}
  : result (list counter) :=
  match seq, tbl with
  | [], _ => Ok tbl
  | ch :: seq', c :: tbl' =>
      r <- add_sequence tbl' seq';; Ok (counter_incr c ch :: r)
  | _ :: _, [] => Err IndexError
  end.

(** [nucleotide_counts = [Counter() for _ in range(len(next(iter(primers.values()))))]]
    ([next] on an empty dict raises [StopIteration]), then one pass per
    sequence of [primers.values()]. *)
Definition calculate_nucleotide_frequencies (primers : dict string)
  : result (list counter) :=
  match dict_values primers with
  | [] => Err StopIteration
  | first :: _ =>
      fold_left (fun acc seq => tbl <- acc;; add_sequence tbl (chars seq))
                (dict_values primers)
                (Ok (repeat [] (String.length first)))
  end.

(** ** [calculate_diversity_score] (Primer_Pair_SL.py, l. 23-26) *)

Definition count_Q (n : nat) : Q := inject_Z (Z.of_nat n).

(** [ideal_count = total_primers / 4;
     sum(abs(ideal_count - count) for pos in nucleotide_counts for count in pos.values())] *)
Definition calculate_diversity_score (nucleotide_counts : list counter)
  (total_primers : Z) : Q :=
  let ideal_count := (inject_Z total_primers / 4)%Q in
  py_sum (flat_map (fun pos =>
            map (fun count => Qabs (ideal_count - count_Q count)%Q) (counter_values pos))
          nucleotide_counts).

(** The score as the spec words it: over every position and every base of
    "ATCG", with a base missing from a position read as 0. *)
Definition diversity_score_spec (freq : list counter) (total : Z) : Q :=
  let ideal := (inject_Z total / 4)%Q in
  py_sum (flat_map (fun pos =>
            map (fun base => Qabs (ideal - count_Q (counter_get pos base))%Q)
                (chars "ATCG"))
          freq).

End FrequencyModel.

(** List helpers for Python indexing and comprehensions. *)
Definition nth_result {A : Type} (l : list A) (i : nat) : result A :=
  match nth_error l i with
  | Some a => Ok a
  | None => Err IndexError
  end.

Fixpoint mapM {A B : Type} (f : A -> result B) (l : list A) : result (list B) :=
  match l with
  | [] => Ok []
  | a :: l' => b <- f a;; bs <- mapM f l';; Ok (b :: bs)
  end.

Module Reporter.
Import FrequencyModel.

(** ** [create_nucleotide_matrix] (Primer_Pair_SL.py, l. 56-66)

    The DataFrame is kept column by column: the label column
    ['Basepair position'] and, for each position [pos + 1], its column of
    counts in row order A, T, C, G followed by the appended ['Sum to:'] row. *)
Record frame : Type := {
  row_labels : list string;
  count_columns : list (list nat)
}.

Definition bases : list ascii := chars "ATCG".

Definition create_nucleotide_matrix (frequencies : list counter) : result frame :=
  data <- mapM (fun pos =>
                  f <- nth_result frequencies pos;;
                  Ok (map (fun base => counter_get f base) bases))
               (seq 0 8);;
  (* sum_row = matrix_df.iloc[:, 1:].sum(): one sum per position column *)
  let sum_row := map (fun col => fold_left Nat.add col 0) data in
  Ok {| row_labels := ["A"; "T"; "C"; "G"; "Sum to:"]%string;
        count_columns := map (fun cs => fst cs ++ [snd cs]) (combine data sum_row) |}.

(** The ['Sum to:'] entry of position column [pos] (0-based). *)
Definition sum_row_at (df : frame) (pos : nat) : option nat :=
  match nth_error (count_columns df) pos with
  | Some col => nth_error col 4
  | None => None
  end.

End Reporter.

Module StochasticSelector.
Import FrequencyModel.

(** A selection: the two dicts [selected_forward], [selected_reverse]. *)
Definition selection : Type := (dict string * dict string)%type.

(** The two results of [random.sample] in one trial: forward keys, then
    reverse keys. The random source is an input: [draws t] is what
    [random.sample] returns at iteration [t]. *)
Definition draw : Type := (list string * list string)%type.

Fixpoint nodupb (l : list string) : bool :=
  match l with
  | [] => true
  | x :: l' => negb (existsb (String.eqb x) l') && nodupb l'
  end.

(** [random.sample(population, k)]: [k] distinct members of [population]. *)
Definition is_sample (population : list string) (k : nat) (s : list string) : bool :=
  (List.length s =? k) && nodupb s
  && forallb (fun x => existsb (String.eqb x) population) s.

Definition valid_draw (fwd rev : dict string) (nf nr : nat) (d : draw) : bool :=
  is_sample (dict_keys fwd) nf (fst d) && is_sample (dict_keys rev) nr (snd d).

(** [{key: primers[key] for key in keys}] *)
Definition select_keys (primers : dict string) (keys : list string)
  : result (dict string) :=
  mapM (fun key => v <- dict_get primers key;; Ok (key, v)) keys.

(** [total_frequencies = [Counter() for _ in range(8)];
     for i in range(8): total_frequencies[i] = forward_frequencies[i] + reverse_frequencies[i]] *)
Definition combine_frequencies (ff rf : list counter) : result (list counter) :=
  mapM (fun i => a <- nth_result ff i;; b <- nth_result rf i;; Ok (counter_add a b))
       (seq 0 8).

(** The combined frequency table of a selection, as one trial computes it. *)
Definition selection_frequencies (sel : selection) : result (list counter) :=
  ff <- calculate_nucleotide_frequencies (fst sel);;
  rf <- calculate_nucleotide_frequencies (snd sel);;
  combine_frequencies ff rf.

(** The body of one iteration, up to the score. *)
Definition trial (fwd rev : dict string) (nf nr : nat) (d : draw)
  : result (selection * Q * list counter) :=
  selected_forward <- select_keys fwd (fst d);;
  selected_reverse <- select_keys rev (snd d);;
  forward_frequencies <- calculate_nucleotide_frequencies selected_forward;;
  reverse_frequencies <- calculate_nucleotide_frequencies selected_reverse;;
  total_frequencies <- combine_frequencies forward_frequencies reverse_frequencies;;
  Ok ((selected_forward, selected_reverse),
      calculate_diversity_score total_frequencies (Z.of_nat (nf + nr)),
      total_frequencies).

(** Local variables of [select_optimal_primers]; [None] for [best_score]
    is [float('inf')], [None] elsewhere is an unassigned name. *)
Record search_state : Type := {
  best_score : option Q;
  best_combination : option selection;
  last_total_frequencies : option (list counter)
}.

(** [score < best_score] *)
Definition improves (score : Q) (best : option Q) : bool :=
  match best with
  | None => true
  | Some b => negb (Qle_bool b score)
  end.

Fixpoint trials (fwd rev : dict string) (nf nr : nat) (draws : nat -> draw)
  (k t : nat) (st : search_state) : result search_state :=
  match k with
  | O => Ok st
  | S k' =>
      r <- trial fwd rev nf nr (draws t);;
      let '(sel, score, tf) := r in
      let st' :=
        if improves score (best_score st)
        then {| best_score := Some score; best_combination := Some sel;
                last_total_frequencies := Some tf |}
        else {| best_score := best_score st; best_combination := best_combination st;
                last_total_frequencies := Some tf |} in
      trials fwd rev nf nr draws k' (S t) st'
  end.

(** [select_optimal_primers] (Primer_Pair_SL.py, l. 29-53): 10000 trials,
    then [return best_combination, best_score, total_frequencies]. *)
Definition select_optimal_primers (forward_primers reverse_primers : dict string)
  (num_forward num_reverse : nat) (draws : nat -> draw)
  : result (option selection * option Q * option (list counter)) :=
  st <- trials forward_primers reverse_primers num_forward num_reverse draws 10000 0
          {| best_score := None; best_combination := None;
             last_total_frequencies := None |};;
  Ok (best_combination st, best_score st, last_total_frequencies st).

End StochasticSelector.

Module ExactSelector.
Import FrequencyModel.

(** ** The PuLP integer program (Primer_Pair_SL_V2.py, l. 78-118) *)

(** [f_{key}], [r_{key}] and [dev_{position}_{base}]. *)
Inductive var : Type :=
| FVar (key : string)
| RVar (key : string)
| DevVar (position : nat) (base : ascii).

(** [pulp.LpAffineExpression]: sum of [coefficient * variable] plus a constant. *)
Record affine : Type := {
  terms : list (Q * var);
  constant : Q
}.

Definition aff_var (v : var) : affine := {| terms := [(1%Q, v)]; constant := 0%Q |}.
Definition aff_const (q : Q) : affine := {| terms := []; constant := q |}.
Definition aff_add (a b : affine) : affine :=
  {| terms := terms a ++ terms b; constant := (constant a + constant b)%Q |}.
Definition aff_neg (a : affine) : affine :=
  {| terms := map (fun cv => (- fst cv, snd cv)%Q) (terms a); constant := (- constant a)%Q |}.
Definition aff_sub (a b : affine) : affine := aff_add a (aff_neg b).
(** [sum(...)] / [pulp.lpSum(...)] of expressions. *)
Definition aff_sum (l : list affine) : affine := fold_left aff_add l (aff_const 0).

(** [pulp.LpConstraint]: [expr <= 0], [expr >= 0] or [expr == 0]. *)
Inductive sense : Type := LE | GE | EQ.

Record constraint : Type := {
  expr : affine;
  csense : sense
}.

(** [a <= b], [a >= b], [a == b] as PuLP builds them. *)
Definition c_le (a b : affine) : constraint := {| expr := aff_sub a b; csense := LE |}.
Definition c_ge (a b : affine) : constraint := {| expr := aff_sub a b; csense := GE |}.
Definition c_eq (a b : affine) : constraint := {| expr := aff_sub a b; csense := EQ |}.

Record lp_problem : Type := {
  objective : affine;
  constraints : list constraint
}.

Definition bases : list ascii := chars "ATCG".

Definition positions_bases : list (nat * ascii) := list_prod (seq 0 8) bases.

(** [sum(vars[key] for key, seq in primers.items() if seq[position] == base)];
    [seq[position]] raises [IndexError] on a short sequence. *)
Definition count_expr (mk : string -> var) (primers : dict string)
  (position : nat) (base : ascii) : result affine :=
  hits <- mapM (fun kv =>
                  ch <- nth_result (chars (snd kv)) position;;
                  Ok (if Ascii.eqb ch base then [aff_var (mk (fst kv))] else []))
               primers;;
  Ok (aff_sum (List.concat hits)).

Definition memb (k : string) (l : list string) : bool := existsb (String.eqb k) l.

Definition build_problem (forward_primers reverse_primers : dict string)
  (num_forward_to_select num_reverse_to_select : Z)
  (used_pairs : list (string * string)) : result lp_problem :=
  let ideal_count :=
    (inject_Z (num_forward_to_select + num_reverse_to_select) / 4)%Q in
  distribution <-
    mapM (fun pb =>
            let '(position, base) := pb in
            forward_count <- count_expr FVar forward_primers position base;;
            reverse_count <- count_expr RVar reverse_primers position base;;
            let total_count := aff_add forward_count reverse_count in
            Ok [c_ge (aff_var (DevVar position base))
                     (aff_sub (aff_const ideal_count) total_count);
                c_ge (aff_var (DevVar position base))
                     (aff_sub total_count (aff_const ideal_count))])
         positions_bases;;
  let objective :=
    aff_sum (map (fun pb => aff_var (DevVar (fst pb) (snd pb))) positions_bases) in
  let cardinality :=
    [c_eq (aff_sum (map (fun k => aff_var (FVar k)) (dict_keys forward_primers)))
          (aff_const (inject_Z num_forward_to_select));
     c_eq (aff_sum (map (fun k => aff_var (RVar k)) (dict_keys reverse_primers)))
          (aff_const (inject_Z num_reverse_to_select))] in
  (* for fwd, rev in used_pairs:
       if fwd in forward_vars and rev in reverse_vars:
         problem += forward_vars[fwd] + reverse_vars[rev] <= 1 *)
  let exclusion :=
    flat_map (fun fr =>
                if memb (fst fr) (dict_keys forward_primers)
                   && memb (snd fr) (dict_keys reverse_primers)
                then [c_le (aff_add (aff_var (FVar (fst fr))) (aff_var (RVar (snd fr))))
                           (aff_const 1)]
                else [])
             used_pairs in
  Ok {| objective := objective;
        constraints := List.concat distribution ++ cardinality ++ exclusion |}.

(** Values of the variables, and feasibility of an assignment. *)
Definition eval_affine (val : var -> Q) (a : affine) : Q :=
  fold_right (fun cv acc => (fst cv * val (snd cv) + acc)%Q) (constant a) (terms a).

Definition holdsb (val : var -> Q) (c : constraint) : bool :=
  let e := eval_affine val (expr c) in
  match csense c with
  | LE => Qle_bool e 0
  | GE => Qle_bool 0 e
  | EQ => Qeq_bool e 0
  end.

(** [cat="Binary"] on [f_*], [r_*]; [lowBound=0] on [dev_*]. *)
Definition is_binary (q : Q) : bool := Qeq_bool q 0 || Qeq_bool q 1.

Definition feasibleb (forward_primers reverse_primers : dict string)
  (prob : lp_problem) (val : var -> Q) : bool :=
  forallb (fun k => is_binary (val (FVar k))) (dict_keys forward_primers)
  && forallb (fun k => is_binary (val (RVar k))) (dict_keys reverse_primers)
  && forallb (fun pb => Qle_bool 0 (val (DevVar (fst pb) (snd pb)))) positions_bases
  && forallb (holdsb val) (constraints prob).

(** What [problem.solve()] leaves behind: a status, and a [varValue] per
    variable ([None] when the solver reported no value). *)
Inductive lp_status : Type := Optimal | NotSolved | Infeasible | Unbounded | Undefined.

Record solver_report : Type := {
  status : lp_status;
  var_value : var -> option Q
}.

(** A report carrying the values of an assignment. *)
Definition report_of (st : lp_status) (val : var -> Q) : solver_report :=
  {| status := st; var_value := fun v => Some (val v) |}.

(** [[key for key in vars if vars[key].varValue == 1]] *)
Definition selected_primers (mk : string -> var) (primers : dict string)
  (rep : solver_report) : list string :=
  filter (fun key => match var_value rep (mk key) with
                     | Some q => Qeq_bool q 1
                     | None => false
                     end)
         (dict_keys primers).

(** Build the problem, [problem.solve()] (its outcome is [rep]), then extract
    the selected primers (Primer_Pair_SL_V2.py, l. 113-118). *)
Definition exact_select (forward_primers reverse_primers : dict string)
  (num_forward_to_select num_reverse_to_select : Z)
  (used_pairs : list (string * string)) (rep : solver_report)
  : result (list string * list string) :=
  _ <- build_problem forward_primers reverse_primers
         num_forward_to_select num_reverse_to_select used_pairs;;
  Ok (selected_primers FVar forward_primers rep,
      selected_primers RVar reverse_primers rep).

End ExactSelector.

Module Sizing.

(** ** [optimal_primer_counts] (Primer_Pair_SL_V2.py, l. 50-58)

    [int(math.sqrt(n))] is the integer square root and [math.ceil(n / i)]
    the ceiling of the quotient (exact for the pool sizes the app handles). *)
Definition ceil_div (n i : Z) : Z := ((n + i - 1) / i)%Z.

(** [for i in range(root, 0, -1)]: [i = k, k - 1, ..., 1]. *)
Fixpoint counts_loop (k : nat) (n max_forwards max_reverses : Z) : option (Z * Z) :=
  match k with
  | O => None
  | S k' =>
      let i := Z.of_nat k in
      let j := ceil_div n i in
      if (i <=? max_forwards)%Z && (j <=? max_reverses)%Z then Some (i, j)
      else if (j <=? max_forwards)%Z && (i <=? max_reverses)%Z then Some (j, i)
      else counts_loop k' n max_forwards max_reverses
  end.

Definition optimal_primer_counts (n max_forwards max_reverses : Z) : Z * Z :=
  match counts_loop (Z.to_nat (Z.sqrt n)) n max_forwards max_reverses with
  | Some ij => ij
  | None => (Z.min max_forwards max_reverses, Z.min max_forwards max_reverses)
  end.

End Sizing.

Module PairAssignment.

(** ** [new_assigned_pairs] (Primer_Pair_SL_V2.py, l. 121-130) *)
Definition new_assigned_pairs (selected_forward_primers selected_reverse_primers : list string)
  (num_new_samples : nat) : list (string * string) :=
  let pairs := flat_map (fun fwd => map (fun rev => (fwd, rev)) selected_reverse_primers)
                        selected_forward_primers in
  if List.length pairs <? num_new_samples
  then firstn (List.length pairs) pairs
  else firstn num_new_samples pairs.

(** The spec's wording: the cross product in iteration order, truncated. *)
Definition cross_product_truncated (fs rs : list string) (n : nat) : list (string * string) :=
  firstn n (list_prod fs rs).

End PairAssignment.

Module Columns.
Import FrequencyModel.

(** The characters at position [p] of the sequences of a dict, in order
    ([nth] with a filler beyond the end of a sequence). *)
Definition column (p : nat) (primers : dict string) : list ascii :=
  map (fun seq => nth p (chars seq) "000"%char) (dict_values primers).

(** Membership in the alphabet {A, T, C, G}. *)
Definition is_base (ch : ascii) : bool := existsb (Ascii.eqb ch) (chars "ATCG").

(** Sequences whose characters all lie in {A, T, C, G}. *)
Definition over_bases (seq : string) : bool := forallb is_base (chars seq).

End Columns.

Module Scenarios.
Open Scope string_scope.

(** Two-primer pools for the stochastic selector. *)
Definition fwd_two : dict string := [("F1", "AAAAAAAA"); ("F2", "CCCCCCCC")].
Definition rev_two : dict string := [("R1", "CCCCCCCC"); ("R2", "AAAAAAAA")].

(** A run of [random.sample] results: trial 0 draws [F1], [R1]; every later
    trial draws [F1], [R2]. *)
Definition draws_first_best (t : nat) : StochasticSelector.draw :=
  if Nat.eqb t 0 then (["F1"], ["R1"]) else (["F1"], ["R2"]).

(** Ten forward and ten reverse primers, and a used-pairs sheet of eleven
    pairs whose names are in neither pool: both availabilities are
    [10 - 11 = -1]. *)
Definition fwd_ten : dict string :=
  [("F0", "ACGTACGT"); ("F1", "CGTACGTA"); ("F2", "GTACGTAC"); ("F3", "TACGTACG");
   ("F4", "AACCGGTT"); ("F5", "CCGGTTAA"); ("F6", "GGTTAACC"); ("F7", "TTAACCGG");
   ("F8", "ACACGTGT"); ("F9", "GTGTACAC")].
Definition rev_ten : dict string :=
  [("R0", "TGCATGCA"); ("R1", "GCATGCAT"); ("R2", "CATGCATG"); ("R3", "ATGCATGC");
   ("R4", "TTGGCCAA"); ("R5", "GGCCAATT"); ("R6", "CCAATTGG"); ("R7", "AATTGGCC");
   ("R8", "TGTGCACA"); ("R9", "CACATGTG")].
Definition used_foreign : list (string * string) :=
  [("X0", "Y0"); ("X1", "Y1"); ("X2", "Y2"); ("X3", "Y3"); ("X4", "Y4"); ("X5", "Y5");
   ("X6", "Y6"); ("X7", "Y7"); ("X8", "Y8"); ("X9", "Y9"); ("X10", "Y10")].

(** A feasible assignment for [fwd_two], [rev_two], one of each, with the
    used pair [(F1, R2)]: select [F1] and [R1], deviations 1/2 wherever the
    base count is 0 or 1 against the ideal 1/2. *)
Definition used_f1_r2 : list (string * string) := [("F1", "R2")].

Definition val_f1_r1 (v : ExactSelector.var) : Q :=
  match v with
  | ExactSelector.FVar k => if String.eqb k "F1" then 1 else 0
  | ExactSelector.RVar k => if String.eqb k "R1" then 1 else 0
  | ExactSelector.DevVar _ _ => 1 # 2
  end.

(** The integer programs of the scenarios, as [build_problem] makes them. *)
Definition empty_problem : ExactSelector.lp_problem :=
  {| ExactSelector.objective := ExactSelector.aff_const 0;
     ExactSelector.constraints := [] |}.

Definition problem_of (r : result ExactSelector.lp_problem) : ExactSelector.lp_problem :=
  match r with
  | Ok p => p
  | Err _ => empty_problem
  end.

Definition prob_f1_r2 : ExactSelector.lp_problem :=
  problem_of (ExactSelector.build_problem fwd_two rev_two 1 1 used_f1_r2).

Definition prob_foreign : ExactSelector.lp_problem :=
  problem_of (ExactSelector.build_problem fwd_ten rev_ten (-1) (-1) used_foreign).

End Scenarios.

Module App.
Import FrequencyModel.

(** ** The app code around the selectors *)

(** [str.lower()] on ASCII text. *)
Definition ascii_lower (c : ascii) : ascii :=
  let n := nat_of_ascii c in
  if (65 <=? n) && (n <=? 90) then ascii_of_nat (n + 32) else c.

Definition str_lower (s : string) : string :=
  string_of_list_ascii (map ascii_lower (chars s)).

(** [d[k] = v]: an existing key keeps its place and takes the new value,
    a new key is appended. *)
Fixpoint dict_setitem {V : Type} (d : dict V) (k : string) (v : V) : dict V :=
  match d with
  | [] => [(k, v)]
  | (k', v') :: d' =>
      if String.eqb k k' then (k', v) :: d' else (k', v') :: dict_setitem d' k v
  end.

(** [d.update(items)]: the items are set one after the other. *)
Definition dict_update {V : Type} (d : dict V) (items : list (string * V)) : dict V :=
  fold_left (fun acc kv => dict_setitem acc (fst kv) (snd kv)) items d.

(** [dict(zip(keys, values))] *)
Definition dict_of_pairs {V : Type} (items : list (string * V)) : dict V :=
  dict_update [] items.

(** [{**a, **b}] (Primer_Pair_SL.py, l. 115) *)
Definition dict_merge {V : Type} (a b : dict V) : dict V := dict_update a b.

(** A row of the uploaded primer sheet. *)
Record primer_row : Type := {
  indexname : string;
  type : string;
  sequence : string
}.

(** [df = primers_df[primers_df['type'].str.lower() == kind];
     dict(zip(df['indexname'], df['sequence']))]
    (Primer_Pair_SL.py, l. 88-93; Primer_Pair_SL_V2.py, l. 19-23). *)
Definition primers_of_type (rows : list primer_row) (kind : string) : dict string :=
  dict_of_pairs (map (fun r => (indexname r, sequence r))
                     (filter (fun r => String.eqb (str_lower (type r)) kind) rows)).

Definition py_in (k : string) (l : list string) : bool := existsb (String.eqb k) l.

(** [{name: seq for name, seq in primers.items() if name not in excluded_primers}]
    (Primer_Pair_SL.py, l. 99-100). *)
Definition drop_excluded (primers : dict string) (excluded_primers : list string)
  : dict string :=
  filter (fun kv => negb (py_in (fst kv) excluded_primers)) primers.

(** [{fwd for fwd, _ in used_pairs}], [{rev for _, rev in used_pairs}]
    (Primer_Pair_SL_V2.py, l. 38-39). *)
Definition used_forward_primers (used_pairs : list (string * string)) : list string :=
  nodup string_dec (map fst used_pairs).
Definition used_reverse_primers (used_pairs : list (string * string)) : list string :=
  nodup string_dec (map snd used_pairs).

(** Primer_Pair_SL_V2.py, l. 61-75: the counts to select, or [None] where
    [st.stop()] ends the run. *)
Definition selection_counts (forward_primers reverse_primers : dict string)
  (used_pairs : list (string * string)) (num_new_samples : Z) : option (Z * Z) :=
  let available_forwards :=
    (Z.of_nat (List.length forward_primers)
     - Z.of_nat (List.length (used_forward_primers used_pairs)))%Z in
  let available_reverses :=
    (Z.of_nat (List.length reverse_primers)
     - Z.of_nat (List.length (used_reverse_primers used_pairs)))%Z in
  let counts := Sizing.optimal_primer_counts num_new_samples
                  available_forwards available_reverses in
  let max_available_pairs := (available_forwards * available_reverses)%Z in
  if (max_available_pairs <? num_new_samples)%Z then None else Some counts.

(** ** [create_combined_excel] (Primer_Pair_SL_V2.py, l. 136-162), its two sheets *)

Record sample_row : Type := {
  sample : nat;
  forward : string;
  forward_sequence : string;
  reverse : string;
  reverse_sequence : string
}.

(** [for i, (fwd, rev) in enumerate(new_pairs, start=1): sample_data.append({...})] *)
Definition sample_data (forward_primers reverse_primers : dict string)
  (new_pairs : list (string * string)) : result (list sample_row) :=
  mapM (fun ip =>
          let '(i, (fwd, rev)) := ip in
          fseq <- dict_get forward_primers fwd;;
          rseq <- dict_get reverse_primers rev;;
          Ok {| sample := i; forward := fwd; forward_sequence := fseq;
                reverse := rev; reverse_sequence := rseq |})
       (combine (seq 1 (List.length new_pairs)) new_pairs).

Record primer_entry : Type := {
  id : string;
  direction : string;
  nucleotide_sequence : string
}.

(** [for fwd in selected_forward_primers: primer_data.append({...})], then
    the same for the reverse primers. *)
Definition primer_data (forward_primers reverse_primers : dict string)
  (selected_forward_primers selected_reverse_primers : list string)
  : result (list primer_entry) :=
  fwd_rows <- mapM (fun fwd => s <- dict_get forward_primers fwd;;
                      Ok {| id := fwd; direction := "Forward"%string;
                            nucleotide_sequence := s |})
                   selected_forward_primers;;
  rev_rows <- mapM (fun rev => s <- dict_get reverse_primers rev;;
                      Ok {| id := rev; direction := "Reverse"%string;
                            nucleotide_sequence := s |})
                   selected_reverse_primers;;
  Ok (fwd_rows ++ rev_rows).

End App.

(** * Properties *)

From Stdlib Require Import Lqa.

(** ** Pair assignment *)

Section PairAssignmentProofs.
Import PairAssignment.

Lemma comprehension_is_list_prod (fs rs : list string) :
  flat_map (fun fwd => map (fun rev => (fwd, rev)) rs) fs = list_prod fs rs.
Proof. induction fs as [|f fs IH]; simpl; [reflexivity | now rewrite IH]. Qed.

Lemma NoDup_map_pair (f : string) (rs : list string) :
  NoDup rs -> NoDup (map (fun rev => (f, rev)) rs).
Proof.
  induction 1 as [|r rs Hr Hrs IH]; simpl; constructor; auto.
  rewrite in_map_iff. intros [r' [Heq Hin]]. inversion Heq; subst. contradiction.
Qed.

Lemma NoDup_list_prod (fs rs : list string) :
  NoDup fs -> NoDup rs -> NoDup (list_prod fs rs).
Proof.
  intros Hfs Hrs. induction Hfs as [|f fs Hf Hfs IH]; simpl; [constructor|].
  apply NoDup_app; auto using NoDup_map_pair.
  intros [f' r'] Hin Hin'. apply in_map_iff in Hin as [r'' [Heq _]].
  inversion Heq; subst. apply in_prod_iff in Hin' as [Hf' _]. contradiction.
Qed.

Lemma NoDup_firstn_of {A : Type} (n : nat) (l : list A) : NoDup l -> NoDup (firstn n l).
Proof.
  intros H. rewrite <- (firstn_skipn n l) in H. exact (NoDup_app_remove_r _ _ H).
Qed.

End PairAssignmentProofs.

(** C8: for duplicate-free forward and reverse name lists, the assigned pairs
    are the cross product (forward-major iteration order) truncated to the
    first [num_new_samples] pairs; they contain no duplicate tuple and at most
    [num_new_samples] entries. *)
Theorem new_assigned_pairs_cross_product (fs rs : list string) (n : nat) :
  NoDup fs -> NoDup rs ->
  PairAssignment.new_assigned_pairs fs rs n = PairAssignment.cross_product_truncated fs rs n
  /\ NoDup (PairAssignment.new_assigned_pairs fs rs n)
  /\ List.length (PairAssignment.new_assigned_pairs fs rs n) <= n.
Proof.
  intros Hfs Hrs.
  assert (Heq : PairAssignment.new_assigned_pairs fs rs n
                = PairAssignment.cross_product_truncated fs rs n).
  { unfold PairAssignment.new_assigned_pairs, PairAssignment.cross_product_truncated.
    rewrite comprehension_is_list_prod.
    destruct (Nat.ltb_spec (List.length (list_prod fs rs)) n) as [Hlt|Hge].
    - rewrite firstn_all, firstn_all2; [reflexivity | lia].
    - reflexivity. }
  rewrite Heq. unfold PairAssignment.cross_product_truncated.
  split; [reflexivity | split].
  - apply NoDup_firstn_of, NoDup_list_prod; assumption.
  - apply firstn_le_length.
Qed.

Lemma new_assigned_pairs_cross_product_witness :
  NoDup ["F1"; "F2"]%string /\ NoDup ["R1"; "R2"; "R3"]%string /\
  PairAssignment.new_assigned_pairs ["F1"; "F2"]%string ["R1"; "R2"; "R3"]%string 4
  = PairAssignment.cross_product_truncated ["F1"; "F2"]%string ["R1"; "R2"; "R3"]%string 4.
Proof.
  assert (H1 : NoDup ["F1"; "F2"]%string)
    by (repeat constructor; simpl; intuition discriminate).
  assert (H2 : NoDup ["R1"; "R2"; "R3"]%string)
    by (repeat constructor; simpl; intuition discriminate).
  split; [exact H1 | split; [exact H2 |]].
  exact (proj1 (new_assigned_pairs_cross_product _ _ 4 H1 H2)).
Defined.

(** ** Sizing *)

Section SizingProofs.
Import Sizing.
Open Scope Z_scope.

Lemma ceil_div_cover (n i : Z) : 0 < i -> n <= i * ceil_div n i.
Proof.
  intros Hi. unfold ceil_div.
  pose proof (Z.div_mod (n + i - 1) i ltac:(lia)).
  pose proof (Z.mod_pos_bound (n + i - 1) i Hi). lia.
Qed.

Lemma ceil_div_least (n i m : Z) : 0 < i -> n <= i * m -> ceil_div n i <= m.
Proof.
  intros Hi Hm. unfold ceil_div.
  assert ((n + i - 1) / i < m + 1) by (apply Z.div_lt_upper_bound; lia). lia.
Qed.

(** [(i, ceil(n / i))] fits the capacities in one orientation or the other. *)
Definition fits (n mf mr i : Z) : Prop :=
  (i <= mf /\ ceil_div n i <= mr) \/ (ceil_div n i <= mf /\ i <= mr).

Lemma counts_loop_S (k : nat) (n mf mr : Z) :
  counts_loop (S k) n mf mr =
  if (Z.of_nat (S k) <=? mf) && (ceil_div n (Z.of_nat (S k)) <=? mr)
  then Some (Z.of_nat (S k), ceil_div n (Z.of_nat (S k)))
  else if (ceil_div n (Z.of_nat (S k)) <=? mf) && (Z.of_nat (S k) <=? mr)
  then Some (ceil_div n (Z.of_nat (S k)), Z.of_nat (S k))
  else counts_loop k n mf mr.
Proof. reflexivity. Qed.

Lemma counts_loop_spec (k : nat) (n mf mr : Z) :
  match counts_loop k n mf mr with
  | Some r =>
      exists i, 1 <= i <= Z.of_nat k /\
        ((r = (i, ceil_div n i) /\ i <= mf /\ ceil_div n i <= mr) \/
         (r = (ceil_div n i, i) /\ ceil_div n i <= mf /\ i <= mr)) /\
        (forall i', i < i' <= Z.of_nat k -> ~ fits n mf mr i')
  | None => forall i, 1 <= i <= Z.of_nat k -> ~ fits n mf mr i
  end.
Proof.
  induction k as [|k IH].
  - intros i Hi. simpl in Hi. lia.
  - rewrite counts_loop_S. set (i := Z.of_nat (S k)).
    destruct ((i <=? mf) && (ceil_div n i <=? mr)) eqn:E1.
    { apply andb_true_iff in E1 as [E1 E2]. apply Z.leb_le in E1, E2.
      exists i. split; [lia | split; [left; auto | intros i' Hi'; lia]]. }
    destruct ((ceil_div n i <=? mf) && (i <=? mr)) eqn:E2.
    { apply andb_true_iff in E2 as [E2 E3]. apply Z.leb_le in E2, E3.
      exists i. split; [lia | split; [right; auto | intros i' Hi'; lia]]. }
    assert (Hi : ~ fits n mf mr i).
    { unfold fits. rewrite andb_false_iff in E1, E2.
      destruct E1 as [E1|E1], E2 as [E2|E2]; apply Z.leb_gt in E1, E2; lia. }
    destruct (counts_loop k n mf mr) as [r|].
    + destruct IH as [i0 [Hr [Hsel Hlater]]]. exists i0.
      split; [lia | split; [exact Hsel |]].
      intros i' Hi'. destruct (Z.eq_dec i' i) as [->|Hne]; [exact Hi|].
      apply Hlater. lia.
    + intros i' Hi'. destruct (Z.eq_dec i' i) as [->|Hne]; [exact Hi|].
      apply IH. lia.
Qed.

(** A positive pair covering [n] whose smaller side is [m] makes [m] fit. *)
Lemma feasible_pair_fits (n mf mr a b : Z) :
  1 <= a -> 1 <= b -> a <= mf -> b <= mr -> n <= a * b -> fits n mf mr (Z.min a b).
Proof.
  intros Ha Hb Haf Hbr Hab. unfold fits.
  destruct (Z.le_ge_cases a b) as [Hle|Hge].
  - rewrite Z.min_l by lia. left. split; [lia|].
    assert (ceil_div n a <= b) by (apply ceil_div_least; lia). lia.
  - rewrite Z.min_r by lia. right. split; [|lia].
    assert (ceil_div n b <= a) by (apply ceil_div_least; lia). lia.
Qed.

End SizingProofs.

(** C5: for [n >= 1] pairs and capacities whose product covers [n],
    [optimal_primer_counts] returns [(nf, nr)] with [nf * nr >= n],
    [nf <= max_forwards] and [nr <= max_reverses]; its larger side is the
    least possible among the positive covering pairs within the capacities
    whose smaller side is at most [floor(sqrt n)] (the search downward from
    [floor(sqrt n)]); and for [n = 12] with capacities at least 3 and 4 (in
    either order) it returns [(3, 4)] or [(4, 3)]. *)
Theorem optimal_primer_counts_sizing (n max_forwards max_reverses : Z) :
  (1 <= n)%Z -> (n <= max_forwards * max_reverses)%Z ->
  let (nf, nr) := Sizing.optimal_primer_counts n max_forwards max_reverses in
  (n <= nf * nr /\ nf <= max_forwards /\ nr <= max_reverses)%Z /\
  (forall a b : Z, 1 <= a -> 1 <= b -> a <= max_forwards -> b <= max_reverses ->
     n <= a * b -> Z.min a b <= Z.sqrt n -> Z.max nf nr <= Z.max a b)%Z /\
  (n = 12 ->
   (3 <= max_forwards /\ 4 <= max_reverses) \/ (4 <= max_forwards /\ 3 <= max_reverses) ->
   (nf, nr) = (3, 4) \/ (nf, nr) = (4, 3))%Z.
Proof.
  intros Hn Hcap.
  pose proof (Z.sqrt_spec n ltac:(lia)) as [Hs1 Hs2].
  pose proof (Z.sqrt_nonneg n) as Hs0.
  assert (Hk : Z.of_nat (Z.to_nat (Z.sqrt n)) = Z.sqrt n) by (apply Z2Nat.id; lia).
  pose proof (counts_loop_spec (Z.to_nat (Z.sqrt n)) n max_forwards max_reverses) as Hloop.
  unfold Sizing.optimal_primer_counts.
  destruct (Sizing.counts_loop (Z.to_nat (Z.sqrt n)) n max_forwards max_reverses)
    as [[nf nr]|] eqn:Hrun; cbv beta iota in Hloop.
  - destruct Hloop as [i [Hi [Hsel Hlater]]]. rewrite Hk in Hi, Hlater.
    pose proof (ceil_div_cover n i ltac:(lia)) as Hcov.
    assert (Hic : (i <= Sizing.ceil_div n i)%Z) by nia.
    split; [|split].
    + destruct Hsel as [[Heq [H1 H2]]|[Heq [H1 H2]]]; inversion Heq; subst; lia.
    + intros a b Ha Hb Haf Hbr Hab Hmin.
      pose proof (feasible_pair_fits n max_forwards max_reverses a b Ha Hb Haf Hbr Hab) as Hf.
      assert (Hmi : (Z.min a b <= i)%Z).
      { destruct (Z.le_gt_cases (Z.min a b) i) as [Hle|Hgt]; [exact Hle|].
        exfalso. apply (Hlater (Z.min a b)); [lia | exact Hf]. }
      assert (Hc : (Sizing.ceil_div n i <= Z.max a b)%Z).
      { apply ceil_div_least; [lia|]. nia. }
      destruct Hsel as [[Heq _]|[Heq _]]; inversion Heq; subst; lia.
    + intros -> Hcaps.
      change (Z.to_nat (Z.sqrt 12)) with 3%nat in Hrun.
      rewrite counts_loop_S in Hrun.
      change (Z.of_nat 3) with 3%Z in Hrun.
      change (Sizing.ceil_div 12 3) with 4%Z in Hrun.
      destruct Hcaps as [[H1 H2]|[H1 H2]].
      * left. destruct (3 <=? max_forwards)%Z eqn:E1; [|apply Z.leb_gt in E1; lia].
        destruct (4 <=? max_reverses)%Z eqn:E2; [|apply Z.leb_gt in E2; lia].
        simpl in Hrun. now inversion Hrun.
      * destruct ((3 <=? max_forwards)%Z && (4 <=? max_reverses)%Z) eqn:E1.
        { left. now inversion Hrun. }
        right.
        destruct (4 <=? max_forwards)%Z eqn:E2; [|apply Z.leb_gt in E2; lia].
        destruct (3 <=? max_reverses)%Z eqn:E3; [|apply Z.leb_gt in E3; lia].
        simpl in Hrun. now inversion Hrun.
  - rewrite Hk in Hloop.
    set (m := Z.min max_forwards max_reverses).
    split; [|split].
    + split; [|split; unfold m; lia].
      destruct (Z.le_gt_cases 1 max_forwards) as [Hf1|Hf1].
      * assert (Hr1 : (1 <= max_reverses)%Z) by nia.
        assert (Hm : (Z.sqrt n < m)%Z).
        { destruct (Z.le_gt_cases m (Z.sqrt n)) as [Hle|Hgt]; [|exact Hgt].
          exfalso. apply (Hloop m); [unfold m; lia|].
          assert (Hfit := feasible_pair_fits n max_forwards max_reverses
                            max_forwards max_reverses Hf1 Hr1
                            ltac:(lia) ltac:(lia) Hcap).
          exact Hfit. }
        unfold Z.succ in Hs2. nia.
      * assert (Hr1 : (max_reverses <= -1)%Z) by nia.
        unfold m. destruct (Z.le_ge_cases max_forwards max_reverses);
          [rewrite Z.min_l by lia | rewrite Z.min_r by lia]; nia.
    + intros a b Ha Hb Haf Hbr Hab Hmin. exfalso.
      apply (Hloop (Z.min a b)); [lia|].
      apply feasible_pair_fits; assumption.
    + intros -> Hcaps. exfalso. apply (Hloop 3%Z); [change (Z.sqrt 12) with 3%Z; lia|].
      unfold fits. change (Sizing.ceil_div 12 3) with 4%Z. lia.
Qed.

Lemma optimal_primer_counts_sizing_witness :
  (1 <= 12)%Z /\ (12 <= 3 * 4)%Z /\ ((3, 4) = (3, 4) \/ (3, 4) = (4, 3))%Z.
Proof.
  pose proof (optimal_primer_counts_sizing 12 3 4 ltac:(lia) ltac:(lia)) as H.
  change (Sizing.optimal_primer_counts 12 3 4) with (3%Z, 4%Z) in H.
  destruct H as [_ [_ H12]].
  split; [lia | split; [lia | apply H12; [reflexivity | left; lia]]].
Defined.

(** ** The exact selector *)

Section ExactSelectorProofs.
Import ExactSelector.

Lemma memb_In (k : string) (l : list string) : In k l -> memb k l = true.
Proof.
  intros H. unfold memb. apply existsb_exists. exists k. split; [exact H|].
  apply String.eqb_refl.
Qed.

Lemma build_problem_constraints fwd rev nf nr used prob :
  build_problem fwd rev nf nr used = Ok prob ->
  exists dist,
    constraints prob = dist ++
      [c_eq (aff_sum (map (fun k => aff_var (FVar k)) (dict_keys fwd)))
            (aff_const (inject_Z nf));
       c_eq (aff_sum (map (fun k => aff_var (RVar k)) (dict_keys rev)))
            (aff_const (inject_Z nr))] ++
      flat_map (fun fr =>
                  if memb (fst fr) (dict_keys fwd) && memb (snd fr) (dict_keys rev)
                  then [c_le (aff_add (aff_var (FVar (fst fr))) (aff_var (RVar (snd fr))))
                             (aff_const 1)]
                  else []) used.
Proof.
  unfold build_problem. destruct (mapM _ positions_bases) as [d|e]; simpl;
    intros H; inversion H; subst; clear H.
  eexists. reflexivity.
Qed.

Lemma feasible_holds fwd rev prob val c :
  feasibleb fwd rev prob val = true -> In c (constraints prob) -> holdsb val c = true.
Proof.
  unfold feasibleb. rewrite !andb_true_iff. intros [_ H] Hc.
  rewrite forallb_forall in H. auto.
Qed.

Lemma exclusion_constraint_in fwd rev nf nr used prob f r :
  build_problem fwd rev nf nr used = Ok prob ->
  In (f, r) used -> In f (dict_keys fwd) -> In r (dict_keys rev) ->
  In (c_le (aff_add (aff_var (FVar f)) (aff_var (RVar r))) (aff_const 1)) (constraints prob).
Proof.
  intros Hb Hu Hf Hr. destruct (build_problem_constraints _ _ _ _ _ _ Hb) as [d ->].
  apply in_or_app. right. apply in_or_app. right.
  apply in_flat_map. exists (f, r). split; [exact Hu|].
  simpl. rewrite (memb_In _ _ Hf), (memb_In _ _ Hr). now left.
Qed.

Lemma selected_value mk primers st val k :
  In k (selected_primers mk primers (report_of st val)) ->
  In k (dict_keys primers) /\ (val (mk k) == 1)%Q.
Proof.
  unfold selected_primers, report_of. simpl. rewrite filter_In.
  intros [Hk Hv]. split; [exact Hk|]. now apply Qeq_bool_iff.
Qed.

End ExactSelectorProofs.

(** C3: for every feasible assignment of the integer program built by the
    code, and every [(f, r)] of [used_pairs], the selection extracted from
    that assignment never contains both [f] and [r]. (A name missing from
    its pool is never selected, so pairs with a missing name are covered
    too.) *)
Theorem exact_select_respects_used_pairs
  (fwd rev : dict string) (nf nr : Z) (used : list (string * string))
  (prob : ExactSelector.lp_problem) (val : ExactSelector.var -> Q)
  (st : ExactSelector.lp_status) (sf sr : list string) (f r : string) :
  ExactSelector.build_problem fwd rev nf nr used = Ok prob ->
  ExactSelector.feasibleb fwd rev prob val = true ->
  ExactSelector.exact_select fwd rev nf nr used (ExactSelector.report_of st val)
    = Ok (sf, sr) ->
  In (f, r) used ->
  ~ (In f sf /\ In r sr).
Proof.
  intros Hb Hfeas Hsel Hu [Hf Hr].
  unfold ExactSelector.exact_select in Hsel. rewrite Hb in Hsel.
  simpl in Hsel. inversion Hsel; subst sf sr; clear Hsel.
  apply selected_value in Hf as [Hfk Hfv], Hr as [Hrk Hrv].
  pose proof (exclusion_constraint_in _ _ _ _ _ _ _ _ Hb Hu Hfk Hrk) as Hin.
  pose proof (feasible_holds _ _ _ _ _ Hfeas Hin) as Hc.
  unfold ExactSelector.holdsb, ExactSelector.eval_affine, ExactSelector.aff_sub,
    ExactSelector.aff_add, ExactSelector.aff_neg, ExactSelector.aff_var,
    ExactSelector.aff_const in Hc.
  simpl in Hc. apply Qle_bool_iff in Hc. lra.
Qed.

Lemma exact_select_respects_used_pairs_witness :
  ExactSelector.build_problem Scenarios.fwd_two Scenarios.rev_two 1 1 Scenarios.used_f1_r2
    = Ok Scenarios.prob_f1_r2 /\
  ExactSelector.feasibleb Scenarios.fwd_two Scenarios.rev_two Scenarios.prob_f1_r2
    Scenarios.val_f1_r1 = true /\
  ExactSelector.exact_select Scenarios.fwd_two Scenarios.rev_two 1 1 Scenarios.used_f1_r2
    (ExactSelector.report_of ExactSelector.Optimal Scenarios.val_f1_r1)
    = Ok (["F1"], ["R1"])%string /\
  In ("F1", "R2")%string Scenarios.used_f1_r2 /\
  ~ (In "F1"%string ["F1"]%string /\ In "R2"%string ["R1"]%string).
Proof.
  assert (Hb : ExactSelector.build_problem Scenarios.fwd_two Scenarios.rev_two 1 1
                 Scenarios.used_f1_r2 = Ok Scenarios.prob_f1_r2)
    by (vm_compute; reflexivity).
  assert (Hf : ExactSelector.feasibleb Scenarios.fwd_two Scenarios.rev_two
                 Scenarios.prob_f1_r2 Scenarios.val_f1_r1 = true)
    by (vm_compute; reflexivity).
  assert (Hs : ExactSelector.exact_select Scenarios.fwd_two Scenarios.rev_two 1 1
                 Scenarios.used_f1_r2
                 (ExactSelector.report_of ExactSelector.Optimal Scenarios.val_f1_r1)
               = Ok (["F1"], ["R1"])%string)
    by (vm_compute; reflexivity).
  assert (Hu : In ("F1", "R2")%string Scenarios.used_f1_r2) by (simpl; left; reflexivity).
  split; [exact Hb | split; [exact Hf | split; [exact Hs | split; [exact Hu |]]]].
  exact (exact_select_respects_used_pairs _ _ 1 1 _ _ _ ExactSelector.Optimal _ _
           "F1" "R2" Hb Hf Hs Hu).
Defined.

(** ** The frequency model *)

Section CounterProofs.
Import FrequencyModel.

Lemma counter_values_incr (c : counter) (k : ascii) :
  list_sum (counter_values (counter_incr c k)) = S (list_sum (counter_values c)).
Proof.
  unfold counter_values.
  induction c as [|[k' n] c IH]; simpl; [reflexivity|].
  destruct (Ascii.eqb k k'); simpl; [reflexivity|]. rewrite IH. lia.
Qed.

Lemma counter_get_incr (c : counter) (k k' : ascii) :
  counter_get (counter_incr c k) k' =
  counter_get c k' + (if ascii_dec k k' then 1 else 0).
Proof.
  induction c as [|[k0 n] c IH]; simpl.
  - destruct (ascii_dec k k') as [->|Hne].
    + rewrite Ascii.eqb_refl. reflexivity.
    + destruct (Ascii.eqb_spec k' k); [congruence | reflexivity].
  - destruct (Ascii.eqb_spec k k0) as [->|Hne]; simpl.
    + destruct (Ascii.eqb_spec k' k0), (ascii_dec k0 k'); subst; try congruence; lia.
    + destruct (Ascii.eqb_spec k' k0); [|exact IH].
      subst. destruct (ascii_dec k k0); [congruence | lia].
Qed.

Lemma counter_keys_incr (c : counter) (k k' : ascii) :
  In k' (map fst (counter_incr c k)) <-> k' = k \/ In k' (map fst c).
Proof.
  induction c as [|[k0 n] c IH]; simpl.
  - intuition congruence.
  - destruct (Ascii.eqb_spec k k0) as [->|Hne]; simpl; [intuition congruence|].
    rewrite IH. intuition congruence.
Qed.

Lemma counter_nodup_incr (c : counter) (k : ascii) :
  NoDup (map fst c) -> NoDup (map fst (counter_incr c k)).
Proof.
  induction c as [|[k0 n] c IH]; simpl; intros H.
  - repeat constructor. simpl. tauto.
  - inversion H as [|x l Hx Hl]; subst.
    destruct (Ascii.eqb_spec k k0) as [->|Hne]; simpl; [exact H|].
    constructor; [|auto]. rewrite counter_keys_incr. intros [->|Hin]; auto.
Qed.

Lemma counter_pos_incr (c : counter) (k : ascii) :
  (forall kv, In kv c -> 0 < snd kv) -> forall kv, In kv (counter_incr c k) -> 0 < snd kv.
Proof.
  induction c as [|[k0 n] c IH]; simpl; intros H kv Hin.
  - destruct Hin as [<-|[]]. simpl. lia.
  - destruct (Ascii.eqb k k0); simpl in Hin.
    + destruct Hin as [<-|Hin]; [simpl; lia | auto].
    + destruct Hin as [<-|Hin]; [apply H; left; reflexivity|].
      apply IH; auto.
Qed.

(** What a counter built from scratch over a list of characters holds. *)
Record counts_of (c : counter) (cs : list ascii) : Prop := {
  counts_nodup : NoDup (map fst c);
  counts_pos : forall kv, In kv c -> 0 < snd kv;
  counts_get : forall k, counter_get c k = count_occ ascii_dec cs k;
  counts_keys : forall k, In k (map fst c) -> In k cs;
  counts_sum : list_sum (counter_values c) = List.length cs
}.

Lemma counts_of_fold (cs : list ascii) :
  forall c acc, counts_of c acc -> counts_of (fold_left counter_incr cs c) (acc ++ cs).
Proof.
  induction cs as [|ch cs IH]; intros c acc Hc; simpl.
  - rewrite app_nil_r. exact Hc.
  - replace (acc ++ ch :: cs) with ((acc ++ [ch]) ++ cs) by (rewrite <- app_assoc; reflexivity).
    apply IH. destruct Hc as [Hnd Hpos Hget Hkeys Hsum]. constructor.
    + apply counter_nodup_incr, Hnd.
    + apply counter_pos_incr, Hpos.
    + intros k. rewrite counter_get_incr, Hget, count_occ_app. simpl.
      destruct (ascii_dec ch k); lia.
    + intros k Hk. apply counter_keys_incr in Hk as [->|Hk]; apply in_or_app; [right; left; reflexivity|].
      left. auto.
    + rewrite counter_values_incr, Hsum, length_app. simpl. lia.
Qed.

Lemma counts_of_column (cs : list ascii) : counts_of (fold_left counter_incr cs []) cs.
Proof.
  apply (counts_of_fold cs [] []). constructor; simpl; try tauto; try constructor.
Qed.

Lemma counter_get_member (c : counter) (k : ascii) (v : nat) :
  NoDup (map fst c) -> In (k, v) c -> counter_get c k = v.
Proof.
  induction c as [|[k0 n] c IH]; simpl; intros Hnd Hin; [contradiction|].
  inversion Hnd as [|x l Hx Hl]; subst.
  destruct Hin as [Heq|Hin].
  - inversion Heq; subst. rewrite Ascii.eqb_refl. reflexivity.
  - destruct (Ascii.eqb_spec k k0) as [->|Hne]; [|auto].
    exfalso. apply Hx. apply in_map_iff. exists (k0, v). auto.
Qed.

Lemma counter_get_absent (c : counter) (k : ascii) :
  ~ In k (map fst c) -> counter_get c k = 0.
Proof.
  induction c as [|[k0 n] c IH]; simpl; intros H; [reflexivity|].
  destruct (Ascii.eqb_spec k k0) as [->|Hne]; [tauto|]. auto.
Qed.

End CounterProofs.

Section TableProofs.
Import FrequencyModel.

Lemma chars_length (s : string) : List.length (chars s) = String.length s.
Proof. induction s as [|a s IH]; simpl; [reflexivity | now rewrite IH]. Qed.

Lemma add_sequence_ok (seq : list ascii) : forall tbl,
  List.length seq <= List.length tbl ->
  exists tbl', add_sequence tbl seq = Ok tbl' /\ List.length tbl' = List.length tbl /\
    forall p c, nth_error tbl p = Some c ->
      nth_error tbl' p =
      Some (if p <? List.length seq then counter_incr c (nth p seq "000"%char) else c).
Proof.
  induction seq as [|ch seq IH]; intros tbl Hlen.
  - exists tbl. simpl. split; [reflexivity | split; [reflexivity | auto]].
  - destruct tbl as [|c tbl]; simpl in Hlen; [lia|].
    destruct (IH tbl ltac:(lia)) as [tbl' [Hrun [Hl Hp]]].
    exists (counter_incr c ch :: tbl'). simpl. rewrite Hrun. simpl.
    split; [reflexivity | split; [now rewrite Hl|]].
    intros [|p] c' Hc; simpl in Hc |- *.
    + now inversion Hc.
    + rewrite (Hp p c' Hc). reflexivity.
Qed.

Lemma add_sequence_err (seq : list ascii) : forall tbl,
  List.length tbl < List.length seq -> add_sequence tbl seq = Err IndexError.
Proof.
  induction seq as [|ch seq IH]; intros tbl Hlen; simpl in Hlen; [lia|].
  destruct tbl as [|c tbl]; simpl; [reflexivity|].
  simpl in Hlen. rewrite (IH tbl ltac:(lia)). reflexivity.
Qed.

Definition process (vals : list string) (start : result (list counter)) : result (list counter) :=
  fold_left (fun acc seq => tbl <- acc;; add_sequence tbl (chars seq)) vals start.

Lemma calculate_as_process (primers : dict string) :
  calculate_nucleotide_frequencies primers =
  match dict_values primers with
  | [] => Err StopIteration
  | first :: _ => process (dict_values primers) (Ok (repeat [] (String.length first)))
  end.
Proof. reflexivity. Qed.

Lemma calculate_cons (n0 s0 : string) (rest : dict string) :
  calculate_nucleotide_frequencies ((n0, s0) :: rest) =
  process (s0 :: dict_values rest) (Ok (repeat [] (String.length s0))).
Proof. reflexivity. Qed.

Lemma process_err_stays (vals : list string) (e : py_error) : process vals (Err e) = Err e.
Proof. induction vals as [|s vals IH]; simpl; [reflexivity | exact IH]. Qed.

Lemma process_ok (vals : list string) : forall tbl,
  Forall (fun s => String.length s <= List.length tbl) vals ->
  exists tbl', process vals (Ok tbl) = Ok tbl' /\ List.length tbl' = List.length tbl.
Proof.
  induction vals as [|s vals IH]; intros tbl Hall.
  - exists tbl. split; reflexivity.
  - inversion Hall as [|x l Hs Hrest]; subst.
    destruct (add_sequence_ok (chars s) tbl ltac:(rewrite chars_length; exact Hs))
      as [tbl1 [Hrun [Hl _]]].
    unfold process. simpl. rewrite Hrun.
    destruct (IH tbl1 ltac:(rewrite Hl; exact Hrest)) as [tbl2 [Hrun2 Hl2]].
    exists tbl2. split; [exact Hrun2 | congruence].
Qed.

Lemma process_err (vals : list string) : forall tbl,
  Exists (fun s => List.length tbl < String.length s) vals ->
  process vals (Ok tbl) = Err IndexError.
Proof.
  induction vals as [|s vals IH]; intros tbl Hex; [inversion Hex|].
  unfold process. simpl.
  destruct (Nat.lt_ge_cases (List.length tbl) (String.length s)) as [Hlt|Hge].
  - rewrite add_sequence_err by (rewrite chars_length; exact Hlt).
    apply process_err_stays.
  - destruct (add_sequence_ok (chars s) tbl ltac:(rewrite chars_length; exact Hge))
      as [tbl1 [Hrun [Hl _]]].
    rewrite Hrun. apply IH. rewrite Hl.
    inversion Hex as [x l Hs|x l Hrest]; subst; [lia | exact Hrest].
Qed.

Lemma process_equal (vals : list string) : forall tbl,
  Forall (fun s => String.length s = List.length tbl) vals ->
  exists tbl', process vals (Ok tbl) = Ok tbl' /\ List.length tbl' = List.length tbl /\
    forall p c, nth_error tbl p = Some c ->
      nth_error tbl' p =
      Some (fold_left counter_incr (map (fun s => nth p (chars s) "000"%char) vals) c).
Proof.
  induction vals as [|s vals IH]; intros tbl Hall.
  - exists tbl. split; [reflexivity | split; [reflexivity | auto]].
  - inversion Hall as [|x l Hs Hrest]; subst.
    destruct (add_sequence_ok (chars s) tbl ltac:(rewrite chars_length; lia))
      as [tbl1 [Hrun [Hl Hp]]].
    unfold process. simpl. rewrite Hrun.
    destruct (IH tbl1 ltac:(rewrite Hl; exact Hrest)) as [tbl2 [Hrun2 [Hl2 Hp2]]].
    exists tbl2. split; [exact Hrun2 | split; [congruence|]].
    intros p c Hc. rewrite (Hp2 p (if p <? List.length (chars s)
                                   then counter_incr c (nth p (chars s) "000"%char) else c)).
    + f_equal. simpl.
      assert (Hlt : p < List.length (chars s)).
      { rewrite chars_length, Hs. apply nth_error_Some. congruence. }
      apply Nat.ltb_lt in Hlt. now rewrite Hlt.
    + apply Hp, Hc.
Qed.

(** For a non-empty dict of sequences of one length [L], the table has
    [L] counters and counter [p] is the counter built over column [p]. *)
Lemma calculate_equal_lengths (primers : dict string) (L : nat) :
  primers <> [] ->
  Forall (fun s => String.length s = L) (dict_values primers) ->
  exists tbl, calculate_nucleotide_frequencies primers = Ok tbl /\ List.length tbl = L /\
    forall p c, nth_error tbl p = Some c ->
      p < L /\ c = fold_left counter_incr (Columns.column p primers) [].
Proof.
  intros Hne Hall. rewrite calculate_as_process.
  destruct primers as [|[n0 s0] rest]; [congruence|]. simpl dict_values.
  simpl dict_values in Hall.
  inversion Hall as [|x l Hs0 Hrest]; subst.
  destruct (process_equal (s0 :: dict_values rest) (repeat [] (String.length s0)))
    as [tbl [Hrun [Hl Hp]]].
  { rewrite repeat_length. exact Hall. }
  exists tbl. split; [exact Hrun | split; [now rewrite Hl, repeat_length|]].
  intros p c Hc.
  assert (HpL : p < String.length s0).
  { assert (Htl : List.length tbl = String.length s0) by (rewrite Hl; apply repeat_length).
    rewrite <- Htl. apply nth_error_Some. congruence. }
  split; [exact HpL|].
  rewrite (Hp p []) in Hc by (apply nth_error_repeat; exact HpL).
  inversion Hc. reflexivity.
Qed.

Lemma column_length (p : nat) (primers : dict string) :
  List.length (Columns.column p primers) = List.length primers.
Proof. unfold Columns.column, dict_values. now rewrite !length_map. Qed.

End TableProofs.

(** C9: for a non-empty dict of sequences of one length [L], the table has
    [L] counters, and at every position the counts of the characters
    present sum to the number of sequences. *)
Theorem frequencies_count_conservation (primers : dict string) (L : nat) :
  primers <> [] ->
  Forall (fun s => String.length s = L) (dict_values primers) ->
  exists tbl, FrequencyModel.calculate_nucleotide_frequencies primers = Ok tbl /\
    List.length tbl = L /\
    forall p c, nth_error tbl p = Some c ->
      list_sum (FrequencyModel.counter_values c) = List.length primers.
Proof.
  intros Hne Hall.
  destruct (calculate_equal_lengths primers L Hne Hall) as [tbl [Hrun [Hl Hp]]].
  exists tbl. split; [exact Hrun | split; [exact Hl|]].
  intros p c Hc. destruct (Hp p c Hc) as [_ ->].
  rewrite (counts_sum _ _ (counts_of_column _)). apply column_length.
Qed.

Lemma frequencies_count_conservation_witness :
  Scenarios.fwd_two <> [] /\
  Forall (fun s => String.length s = 8) (dict_values Scenarios.fwd_two) /\
  exists tbl, FrequencyModel.calculate_nucleotide_frequencies Scenarios.fwd_two = Ok tbl.
Proof.
  assert (H1 : Scenarios.fwd_two <> []) by discriminate.
  assert (H2 : Forall (fun s => String.length s = 8) (dict_values Scenarios.fwd_two))
    by (repeat constructor).
  split; [exact H1 | split; [exact H2 |]].
  destruct (frequencies_count_conservation _ 8 H1 H2) as [tbl [Hrun _]].
  exists tbl. exact Hrun.
Defined.

(** C6 (counterexample): the code validates nothing. A sequence with [N]
    (outside {A, T, C, G} also after uppercasing), the same in lowercase,
    and a pool with a sequence shorter than the first one all get a
    frequency table instead of an error. *)
Lemma frequencies_accept_unvalidated_counterexample :
  (exists tbl, FrequencyModel.calculate_nucleotide_frequencies
                 [("P1", "ACGTACGN")]%string = Ok tbl) /\
  (exists tbl, FrequencyModel.calculate_nucleotide_frequencies
                 [("P1", "acgtacgn")]%string = Ok tbl) /\
  (exists tbl, FrequencyModel.calculate_nucleotide_frequencies
                 [("P1", "ACGTACGT"); ("P2", "ACGT")]%string = Ok tbl).
Proof. split; [|split]; eexists; reflexivity. Qed.

Section ReporterProofs.
Import FrequencyModel.
Local Open Scope char_scope.

Lemma mapM_ok {A B : Type} (f : A -> result B) (g : A -> B) (l : list A) :
  (forall x, In x l -> f x = Ok (g x)) -> mapM f l = Ok (map g l).
Proof.
  induction l as [|x l IH]; simpl; intros H; [reflexivity|].
  rewrite (H x (or_introl eq_refl)). simpl.
  rewrite IH by (intros y Hy; apply H; right; exact Hy). reflexivity.
Qed.

(** The four base counts of one character: 1 exactly for A, T, C, G. *)
Lemma count_four_bases (x : ascii) :
  (if ascii_dec x "A" then 1 else 0) + (if ascii_dec x "T" then 1 else 0)
  + (if ascii_dec x "C" then 1 else 0) + (if ascii_dec x "G" then 1 else 0)
  = if Columns.is_base x then 1 else 0.
Proof.
  destruct (ascii_dec x "A") as [->|HA]; [reflexivity|].
  destruct (ascii_dec x "T") as [->|HT]; [reflexivity|].
  destruct (ascii_dec x "C") as [->|HC]; [reflexivity|].
  destruct (ascii_dec x "G") as [->|HG]; [reflexivity|].
  unfold Columns.is_base. simpl.
  apply Ascii.eqb_neq in HA, HT, HC, HG. rewrite HA, HT, HC, HG. reflexivity.
Qed.

Lemma count_bases_filter (cs : list ascii) :
  count_occ ascii_dec cs "A" + count_occ ascii_dec cs "T"
  + count_occ ascii_dec cs "C" + count_occ ascii_dec cs "G"
  = List.length (filter Columns.is_base cs).
Proof.
  induction cs as [|x cs IH]; simpl; [reflexivity|].
  pose proof (count_four_bases x) as H4.
  destruct (Columns.is_base x); simpl;
    destruct (ascii_dec x "A"), (ascii_dec x "T"), (ascii_dec x "C"), (ascii_dec x "G");
    simpl in H4; lia.
Qed.

Lemma filter_length_lt {A : Type} (f : A -> bool) (l : list A) :
  Exists (fun x => f x = false) l -> List.length (filter f l) < List.length l.
Proof.
  induction 1 as [x l Hx|x l Hex IH]; simpl.
  - rewrite Hx. pose proof (filter_length_le f l) as H. lia.
  - destruct (f x); simpl; lia.
Qed.

End ReporterProofs.

(** C10: for a non-empty dict of sequences of length 8, the ['Sum to:']
    entry of the nucleotide matrix at each position is the number of
    sequences whose character there is one of A, T, C, G; whenever some
    sequence has another character (e.g. lowercase or [N]) at that
    position, it is strictly less than the number of sequences. *)
Theorem nucleotide_matrix_omits_other_characters (primers : dict string) :
  primers <> [] ->
  Forall (fun s => String.length s = 8) (dict_values primers) ->
  exists tbl df,
    FrequencyModel.calculate_nucleotide_frequencies primers = Ok tbl /\
    Reporter.create_nucleotide_matrix tbl = Ok df /\
    forall p, p < 8 ->
      Reporter.sum_row_at df p
        = Some (List.length (filter Columns.is_base (Columns.column p primers))) /\
      (Exists (fun ch => Columns.is_base ch = false) (Columns.column p primers) ->
       List.length (filter Columns.is_base (Columns.column p primers)) < List.length primers).
Proof.
  intros Hne Hall.
  destruct (calculate_equal_lengths primers 8 Hne Hall) as [tbl [Hrun [Hl Hp]]].
  set (g := fun pos => map (fun base => FrequencyModel.counter_get (nth pos tbl []) base)
                           Reporter.bases).
  assert (Hdata : mapM (fun pos =>
                          f <- nth_result tbl pos;;
                          Ok (map (fun base => FrequencyModel.counter_get f base)
                                  Reporter.bases))
                       (seq 0 8) = Ok (map g (seq 0 8))).
  { apply mapM_ok. intros pos Hpos. apply in_seq in Hpos.
    unfold nth_result. rewrite (nth_error_nth' tbl [] (n := pos)) by lia.
    reflexivity. }
  exists tbl. eexists. split; [exact Hrun | split].
  { unfold Reporter.create_nucleotide_matrix. rewrite Hdata. reflexivity. }
  intros p Hp8. split.
  - assert (Hcol : forall q, q < 8 ->
              FrequencyModel.counter_get (nth q tbl []) "A"%char
              + FrequencyModel.counter_get (nth q tbl []) "T"%char
              + FrequencyModel.counter_get (nth q tbl []) "C"%char
              + FrequencyModel.counter_get (nth q tbl []) "G"%char
              = List.length (filter Columns.is_base (Columns.column q primers))).
    { intros q Hq. destruct (Hp q (nth q tbl [])) as [_ Hc]; [apply nth_error_nth'; lia|].
      rewrite Hc, !(counts_get _ _ (counts_of_column _)). apply count_bases_filter. }
    unfold Reporter.sum_row_at. simpl.
    do 8 (destruct p as [|p]; [simpl; f_equal; apply Hcol; lia|]). lia.
  - intros Hex. rewrite <- (column_length p primers). apply filter_length_lt, Hex.
Qed.

Lemma nucleotide_matrix_omits_other_characters_witness :
  [("P1", "ACGTACGN"); ("P2", "ACGTACGT")]%string <> [] /\
  Forall (fun s => String.length s = 8)
    (dict_values [("P1", "ACGTACGN"); ("P2", "ACGTACGT")]%string) /\
  List.length (filter Columns.is_base
    (Columns.column 7 [("P1", "ACGTACGN"); ("P2", "ACGTACGT")]%string)) < 2.
Proof.
  assert (H1 : [("P1", "ACGTACGN"); ("P2", "ACGTACGT")]%string <> []) by discriminate.
  assert (H2 : Forall (fun s => String.length s = 8)
                 (dict_values [("P1", "ACGTACGN"); ("P2", "ACGTACGT")]%string))
    by (repeat constructor).
  split; [exact H1 | split; [exact H2 |]].
  destruct (nucleotide_matrix_omits_other_characters _ H1 H2) as [tbl [df [_ [_ H]]]].
  apply (proj2 (H 7 ltac:(lia))).
  apply Exists_cons_hd. reflexivity.
Defined.

Section ScoreProofs.
Import FrequencyModel.
Local Open Scope Q_scope.

Lemma fold_left_Qplus (l : list Q) : forall a,
  fold_left Qplus l a == a + fold_right Qplus 0 l.
Proof.
  induction l as [|x l IH]; intros a; simpl; [ring|].
  rewrite IH. ring.
Qed.

Lemma py_sum_nonneg (l : list Q) : Forall (fun x => 0 <= x) l -> 0 <= py_sum l.
Proof.
  intros H. unfold py_sum. rewrite fold_left_Qplus.
  induction H as [|x l Hx Hl IH]; simpl; lra.
Qed.

Lemma py_sum_zero (l : list Q) :
  Forall (fun x => 0 <= x) l -> (py_sum l == 0 <-> Forall (fun x => x == 0) l).
Proof.
  intros H. unfold py_sum. rewrite fold_left_Qplus.
  induction H as [|x l Hx Hl IH]; simpl.
  - split; [constructor | intros _; reflexivity].
  - assert (0 <= fold_right Qplus 0 l).
    { clear IH. induction Hl; simpl; lra. }
    split.
    + intros Hs. constructor; [lra|]. apply IH. lra.
    + intros Hall. inversion Hall as [|y k Hy Hk]; subst.
      apply IH in Hk. lra.
Qed.

Lemma Qabs_zero (x : Q) : Qabs x == 0 <-> x == 0.
Proof. apply Qabs_case; intros; lra. Qed.

Lemma count_Q_plus (a b : nat) : count_Q (a + b) == count_Q a + count_Q b.
Proof. unfold count_Q. rewrite Nat2Z.inj_add, inject_Z_plus. reflexivity. Qed.

Lemma count_Q_sum_const (vs : list nat) (q : Q) :
  Forall (fun v => count_Q v == q) vs ->
  count_Q (list_sum vs) == inject_Z (Z.of_nat (List.length vs)) * q.
Proof.
  induction 1 as [|v vs Hv Hvs IH].
  - unfold count_Q. simpl. ring.
  - change (list_sum (v :: vs)) with (v + list_sum vs)%nat.
    change (List.length (v :: vs)) with (S (List.length vs)).
    rewrite count_Q_plus, IH, Hv, Nat2Z.inj_succ, <- Z.add_1_l, inject_Z_plus.
    change (inject_Z 1) with 1. ring.
Qed.

Lemma is_base_In (k : ascii) : Columns.is_base k = true -> In k (chars "ATCG").
Proof.
  unfold Columns.is_base. intros H. apply existsb_exists in H as [x [Hx Heq]].
  apply Ascii.eqb_eq in Heq. subst. exact Hx.
Qed.

Lemma remove_base_length (b : ascii) :
  In b (chars "ATCG") -> List.length (remove ascii_dec b (chars "ATCG")) = 3%nat.
Proof. simpl. intros [<-|[<-|[<-|[<-|[]]]]]; reflexivity. Qed.

(** The per-position step: for a counter built over a non-empty column of
    bases, every present count equals the ideal exactly when every one of
    A, T, C, G does. *)
Lemma position_uniform (cs : list ascii) (c : counter) :
  counts_of c cs -> (1 <= List.length cs)%nat ->
  (forall k, In k cs -> In k (chars "ATCG")) ->
  let ideal := inject_Z (Z.of_nat (List.length cs)) / 4 in
  (forall count, In count (counter_values c) -> count_Q count == ideal) <->
  (forall b, In b (chars "ATCG") -> count_Q (counter_get c b) == ideal).
Proof.
  intros Hc Hlen Hbases ideal. split.
  - intros Hall b Hb.
    destruct (in_dec ascii_dec b (map fst c)) as [Hin|Hout].
    + apply in_map_iff in Hin as [[k v] [Hk Hkv]]. simpl in Hk. subst k.
      rewrite (counter_get_member c b v (counts_nodup _ _ Hc) Hkv).
      apply Hall. apply in_map_iff. exists (b, v). auto.
    + exfalso.
      assert (Hincl : incl (map fst c) (remove ascii_dec b (chars "ATCG"))).
      { intros k Hk. apply in_in_remove.
        - intros ->. contradiction.
        - apply Hbases, (counts_keys _ _ Hc), Hk. }
      pose proof (NoDup_incl_length (counts_nodup _ _ Hc) Hincl) as Hle.
      rewrite remove_base_length in Hle by exact Hb. rewrite length_map in Hle.
      assert (Hsum : count_Q (list_sum (counter_values c))
                     == inject_Z (Z.of_nat (List.length (counter_values c))) * ideal).
      { apply count_Q_sum_const. apply Forall_forall. exact Hall. }
      rewrite (counts_sum _ _ Hc) in Hsum. unfold counter_values in Hsum.
      rewrite length_map in Hsum. unfold ideal, count_Q in Hsum.
      set (n := Z.of_nat (List.length cs)) in Hsum.
      set (m := Z.of_nat (List.length c)) in Hsum.
      assert (H4 : inject_Z (4 * n) == inject_Z (m * n)).
      { rewrite !inject_Z_mult. change (inject_Z 4) with (4 # 1). rewrite Hsum at 1. field. }
      apply (proj1 (inject_Z_injective _ _)) in H4.
      assert (Hn : (n <> 0)%Z) by (unfold n; lia).
      rewrite (Z.mul_comm m n), Z.mul_comm in H4.
      apply Z.mul_cancel_l in H4; [|exact Hn]. unfold m in H4. lia.
  - intros Hall count Hcount.
    apply in_map_iff in Hcount as [[k v] [Hv Hkv]]. simpl in Hv. subst v.
    rewrite <- (counter_get_member c k count (counts_nodup _ _ Hc) Hkv).
    apply Hall, Hbases, (counts_keys _ _ Hc).
    apply in_map_iff. exists (k, count). auto.
Qed.

(** The characters of a column of sequences over {A, T, C, G}, taken
    below their common length, are bases. *)
Lemma column_bases (p L : nat) (primers : dict string) :
  (p < L)%nat -> Forall (fun s => String.length s = L) (dict_values primers) ->
  Forall (fun s => Columns.over_bases s = true) (dict_values primers) ->
  forall k, In k (Columns.column p primers) -> In k (chars "ATCG").
Proof.
  intros HpL Hlen Hb k Hk. unfold Columns.column in Hk.
  apply in_map_iff in Hk as [s [<- Hs]].
  rewrite Forall_forall in Hlen, Hb.
  apply is_base_In. specialize (Hb s Hs). unfold Columns.over_bases in Hb.
  rewrite forallb_forall in Hb. apply Hb.
  apply nth_In. rewrite chars_length, (Hlen s Hs). exact HpL.
Qed.

Lemma score_terms_nonneg (tbl : list counter) (N : Z) :
  Forall (fun x => 0 <= x)
    (flat_map (fun pos => map (fun count => Qabs (inject_Z N / 4 - count_Q count))
                              (counter_values pos)) tbl).
Proof.
  apply Forall_forall. intros x Hx. apply in_flat_map in Hx as [pos [_ Hx]].
  apply in_map_iff in Hx as [count [<- _]]. apply Qabs_nonneg.
Qed.

Lemma score_nonneg (tbl : list counter) (N : Z) :
  0 <= calculate_diversity_score tbl N.
Proof. unfold calculate_diversity_score. cbv zeta. apply py_sum_nonneg, score_terms_nonneg. Qed.

(** The score is zero exactly when every count present in the table is
    the ideal count. *)
Lemma score_zero_iff (tbl : list counter) (N : Z) :
  calculate_diversity_score tbl N == 0 <->
  (forall c, In c tbl -> forall count, In count (counter_values c) ->
     count_Q count == inject_Z N / 4).
Proof.
  unfold calculate_diversity_score. cbv zeta.
  rewrite py_sum_zero by apply score_terms_nonneg.
  rewrite Forall_forall. split.
  - intros H c Hc count Hcount.
    assert (Hz : Qabs (inject_Z N / 4 - count_Q count) == 0).
    { apply H. apply in_flat_map. exists c. split; [exact Hc|].
      apply in_map_iff. exists count. split; [reflexivity | exact Hcount]. }
    apply (proj1 (Qabs_zero _)) in Hz. lra.
  - intros H x Hx. apply in_flat_map in Hx as [c [Hc Hx]].
    apply in_map_iff in Hx as [count [<- Hcount]].
    apply Qabs_zero. specialize (H c Hc count Hcount). lra.
Qed.

End ScoreProofs.

(** C7: for a non-empty dict of sequences of one length over
    {A, T, C, G}, with the number of sequences as total, the diversity
    score of the table is non-negative, and it is zero exactly when, at
    every position, each of A, T, C, G occurs exactly total / 4 times. *)
Theorem diversity_score_zero_iff_uniform (primers : dict string) (L : nat) :
  primers <> [] ->
  Forall (fun s => String.length s = L) (dict_values primers) ->
  Forall (fun s => Columns.over_bases s = true) (dict_values primers) ->
  exists tbl, FrequencyModel.calculate_nucleotide_frequencies primers = Ok tbl /\
    let N := Z.of_nat (List.length primers) in
    (0 <= FrequencyModel.calculate_diversity_score tbl N)%Q /\
    (FrequencyModel.calculate_diversity_score tbl N == 0 <->
     forall p c, nth_error tbl p = Some c -> forall b, In b (chars "ATCG") ->
       FrequencyModel.count_Q (FrequencyModel.counter_get c b) == inject_Z N / 4)%Q.
Proof.
  intros Hne Hlen Hbases.
  destruct (calculate_equal_lengths primers L Hne Hlen) as [tbl [Hrun [Hl Hp]]].
  exists tbl. split; [exact Hrun|]. intros N. split; [apply score_nonneg|].
  assert (Hu : forall p c, nth_error tbl p = Some c ->
     (forall count, In count (FrequencyModel.counter_values c) ->
        (FrequencyModel.count_Q count == inject_Z N / 4)%Q) <->
     (forall b, In b (chars "ATCG") ->
        (FrequencyModel.count_Q (FrequencyModel.counter_get c b) == inject_Z N / 4)%Q)).
  { intros p c Hc. destruct (Hp p c Hc) as [HpL ->].
    assert (H1 : 1 <= List.length (Columns.column p primers)).
    { rewrite column_length. destruct primers; [congruence | simpl; lia]. }
    pose proof (position_uniform _ _ (counts_of_column (Columns.column p primers)) H1
                  (column_bases p L primers HpL Hlen Hbases)) as Hpu.
    cbv zeta in Hpu. rewrite column_length in Hpu. exact Hpu. }
  rewrite score_zero_iff. split.
  - intros H p c Hc. apply (proj1 (Hu p c Hc)). apply H. apply nth_error_In with p. exact Hc.
  - intros H c Hc. apply In_nth_error in Hc as [p Hc].
    apply (proj2 (Hu p c Hc)). apply (H p c Hc).
Qed.

Lemma diversity_score_zero_iff_uniform_witness :
  Scenarios.fwd_two <> [] /\
  Forall (fun s => String.length s = 8) (dict_values Scenarios.fwd_two) /\
  Forall (fun s => Columns.over_bases s = true) (dict_values Scenarios.fwd_two) /\
  exists tbl, FrequencyModel.calculate_nucleotide_frequencies Scenarios.fwd_two = Ok tbl /\
    (0 <= FrequencyModel.calculate_diversity_score tbl 2)%Q.
Proof.
  assert (H1 : Scenarios.fwd_two <> []) by discriminate.
  assert (H2 : Forall (fun s => String.length s = 8) (dict_values Scenarios.fwd_two))
    by (repeat constructor).
  assert (H3 : Forall (fun s => Columns.over_bases s = true) (dict_values Scenarios.fwd_two))
    by (repeat constructor).
  split; [exact H1 | split; [exact H2 | split; [exact H3 |]]].
  destruct (diversity_score_zero_iff_uniform _ 8 H1 H2 H3) as [tbl [Hrun [Hnn _]]].
  exists tbl. split; [exact Hrun | exact Hnn].
Defined.

(** ** The stochastic selector *)

(** C1 (failing input): with pools [fwd_two], [rev_two], one primer of
    each kind, and [random.sample] drawing [F1], [R1] first and [F1], [R2]
    in every later trial (all valid draws), the best selection is the
    first one, but the returned table is the last trial's: it differs from
    the table of the returned best selection. *)
Theorem select_optimal_primers_returns_last_table :
  (forall t, t < 10000 ->
     StochasticSelector.valid_draw Scenarios.fwd_two Scenarios.rev_two 1 1
       (Scenarios.draws_first_best t) = true) /\
  match StochasticSelector.select_optimal_primers Scenarios.fwd_two Scenarios.rev_two 1 1
          Scenarios.draws_first_best with
  | Ok (Some best, Some _, Some tf) =>
      best = ([("F1", "AAAAAAAA")], [("R1", "CCCCCCCC")])%string /\
      StochasticSelector.selection_frequencies best <> Ok tf
  | _ => False
  end.
Proof.
  split.
  - intros t _. unfold Scenarios.draws_first_best.
    destruct (Nat.eqb t 0); vm_compute; reflexivity.
  - vm_compute. split; [reflexivity | discriminate].
Qed.

(** ** The diversity score *)

(** C2 (failing input): for the table of the single sequence [AAAAAAAA]
    and a total of 1, the code sums only the counts present (6), while the
    sum over all four bases, absent ones counted as 0, is 12. *)
Theorem diversity_score_omits_absent_bases :
  exists tbl,
    FrequencyModel.calculate_nucleotide_frequencies [("P1", "AAAAAAAA")]%string = Ok tbl /\
    (FrequencyModel.calculate_diversity_score tbl 1 == 6)%Q /\
    (FrequencyModel.diversity_score_spec tbl 1 == 12)%Q.
Proof.
  eexists. split; [vm_compute; reflexivity|].
  split; vm_compute; reflexivity.
Qed.

(** * Further properties of the code *)

(** ** Dicts built by the app *)

Section DictProofs.
Import App.

(** The value of the last item for [k] in [items], [default] without one. *)
Definition dict_lookup_last {V : Type} (items : list (string * V)) (k : string)
  (default : result V) : result V :=
  fold_left (fun acc kv => if String.eqb k (fst kv) then Ok (snd kv) else acc) items default.

Lemma dict_get_setitem {V : Type} (d : dict V) (k k' : string) (v : V) :
  dict_get (dict_setitem d k v) k' = if String.eqb k' k then Ok v else dict_get d k'.
Proof.
  induction d as [|[k0 v0] d IH]; simpl; [reflexivity|].
  destruct (String.eqb_spec k k0) as [->|Hne]; simpl.
  - destruct (String.eqb k' k0); reflexivity.
  - rewrite IH. destruct (String.eqb_spec k' k0) as [->|Hne'];
      destruct (String.eqb_spec k0 k); congruence.
Qed.

Lemma dict_get_update {V : Type} (items : list (string * V)) : forall (d : dict V) k,
  dict_get (dict_update d items) k = dict_lookup_last items k (dict_get d k).
Proof.
  induction items as [|[k0 v0] items IH]; intros d k; simpl; [reflexivity|].
  unfold dict_update in *. simpl. rewrite IH, dict_get_setitem. reflexivity.
Qed.

Lemma lookup_last_absent {V : Type} (items : list (string * V)) : forall k acc,
  ~ In k (map fst items) -> dict_lookup_last items k acc = acc.
Proof.
  induction items as [|[k0 v0] items IH]; intros k acc Hk; simpl; [reflexivity|].
  simpl in Hk. unfold dict_lookup_last in *. simpl.
  destruct (String.eqb_spec k k0) as [->|Hne]; [tauto|]. apply IH. tauto.
Qed.

Lemma lookup_last_nodup {V : Type} (items : list (string * V)) : forall k acc,
  NoDup (map fst items) ->
  dict_lookup_last items k acc =
  match dict_get items k with Ok v => Ok v | Err _ => acc end.
Proof.
  induction items as [|[k0 v0] items IH]; intros k acc Hnd; simpl; [reflexivity|].
  inversion Hnd as [|x l Hx Hl]; subst.
  unfold dict_lookup_last in *. simpl.
  destruct (String.eqb_spec k k0) as [->|Hne].
  - apply lookup_last_absent. exact Hx.
  - apply IH. exact Hl.
Qed.

Lemma py_in_true (k : string) (l : list string) : py_in k l = true <-> In k l.
Proof.
  unfold py_in. rewrite existsb_exists. split.
  - intros [x [Hx Heq]]. apply String.eqb_eq in Heq. subst. exact Hx.
  - intros H. exists k. split; [exact H | apply String.eqb_refl].
Qed.

Lemma keys_setitem {V : Type} (d : dict V) (k : string) (v : V) (k' : string) :
  In k' (dict_keys (dict_setitem d k v)) <-> k' = k \/ In k' (dict_keys d).
Proof.
  unfold dict_keys. induction d as [|[k0 v0] d IH]; simpl; [intuition congruence|].
  destruct (String.eqb_spec k k0) as [->|Hne]; simpl; [intuition congruence|].
  rewrite IH. intuition congruence.
Qed.

Lemma length_setitem {V : Type} (d : dict V) (k : string) (v : V) :
  List.length (dict_setitem d k v) =
  if py_in k (dict_keys d) then List.length d else S (List.length d).
Proof.
  unfold dict_keys, py_in. induction d as [|[k0 v0] d IH]; simpl; [reflexivity|].
  destruct (String.eqb_spec k k0) as [->|Hne]; simpl; [reflexivity|].
  rewrite IH. destruct (existsb _ _); reflexivity.
Qed.

Lemma nodup_setitem {V : Type} (d : dict V) (k : string) (v : V) :
  NoDup (dict_keys d) -> NoDup (dict_keys (dict_setitem d k v)).
Proof.
  unfold dict_keys. induction d as [|[k0 v0] d IH]; simpl; intros Hnd.
  - repeat constructor. simpl. tauto.
  - inversion Hnd as [|x l Hx Hl]; subst.
    destruct (String.eqb_spec k k0) as [->|Hne]; simpl; [exact Hnd|].
    constructor; [|auto].
    change (~ In k0 (dict_keys (dict_setitem d k v))). rewrite keys_setitem.
    intros [->|H]; [congruence | contradiction].
Qed.

Lemma nodup_update {V : Type} (items : list (string * V)) : forall d : dict V,
  NoDup (dict_keys d) -> NoDup (dict_keys (dict_update d items)).
Proof.
  induction items as [|[k0 v0] items IH]; intros d Hnd; [exact Hnd|].
  unfold dict_update in *. simpl. apply IH, nodup_setitem, Hnd.
Qed.

Lemma length_update {V : Type} (items : list (string * V)) : forall d : dict V,
  NoDup (map fst items) ->
  List.length (dict_update d items) =
  List.length d + List.length (filter (fun kv => negb (py_in (fst kv) (dict_keys d))) items).
Proof.
  induction items as [|[k0 v0] items IH]; intros d Hnd; simpl; [lia|].
  inversion Hnd as [|x l Hx Hl]; subst.
  unfold dict_update in *. simpl. rewrite IH by exact Hl.
  rewrite length_setitem.
  assert (Hf : filter (fun kv => negb (py_in (fst kv) (dict_keys (dict_setitem d k0 v0)))) items
             = filter (fun kv => negb (py_in (fst kv) (dict_keys d))) items).
  { apply filter_ext_in. intros [k1 v1] Hin. simpl.
    assert (Hne : k1 <> k0).
    { intros ->. apply Hx. apply in_map_iff. exists (k0, v1). auto. }
    destruct (py_in k1 (dict_keys d)) eqn:E1;
      destruct (py_in k1 (dict_keys (dict_setitem d k0 v0))) eqn:E2; try reflexivity.
    - apply py_in_true in E1. apply not_true_iff_false in E2.
      exfalso. apply E2, py_in_true, keys_setitem. right. exact E1.
    - apply py_in_true, keys_setitem in E2. apply not_true_iff_false in E1.
      exfalso. destruct E2 as [E2|E2]; [congruence | apply E1, py_in_true, E2]. }
  rewrite Hf. destruct (py_in k0 (dict_keys d)); simpl; lia.
Qed.

Lemma lookup_last_filter_map (rows : list primer_row) (kind k : string) : forall acc,
  dict_lookup_last
    (map (fun r => (indexname r, sequence r))
         (filter (fun r => String.eqb (str_lower (type r)) kind) rows)) k acc =
  fold_left (fun acc r =>
               if String.eqb k (indexname r) && String.eqb (str_lower (type r)) kind
               then Ok (sequence r) else acc) rows acc.
Proof.
  induction rows as [|r rows IH]; intros acc; simpl; [reflexivity|].
  destruct (String.eqb (str_lower (type r)) kind); simpl.
  - unfold dict_lookup_last in *. simpl. rewrite IH.
    destruct (String.eqb k (indexname r)); reflexivity.
  - rewrite IH. destruct (String.eqb k (indexname r)); reflexivity.
Qed.

Lemma dict_get_in_keys {V : Type} (d : dict V) (k : string) :
  In k (dict_keys d) -> exists v, dict_get d k = Ok v /\ In (k, v) d.
Proof.
  unfold dict_keys. induction d as [|[k0 v0] d IH]; simpl; [tauto|].
  intros Hk. destruct (String.eqb_spec k k0) as [->|Hne].
  - exists v0. auto.
  - destruct Hk as [Hk|Hk]; [congruence|].
    destruct (IH Hk) as [v [Hv Hin]]. exists v. auto.
Qed.

Lemma dict_get_ok_in {V : Type} (d : dict V) (k : string) (v : V) :
  dict_get d k = Ok v -> In (k, v) d.
Proof.
  induction d as [|[k0 v0] d IH]; simpl; [discriminate|].
  destruct (String.eqb_spec k k0) as [->|Hne]; intros H.
  - inversion H. auto.
  - auto.
Qed.

End DictProofs.

(** The pool of one kind, as the app reads it from the primer sheet: a
    name maps to the sequence of the last row with that name whose type,
    lowercased, is [kind]; other names are missing ([KeyError]); no name
    occurs twice. *)
Theorem primers_of_type_lookup (rows : list App.primer_row) (kind k : string) :
  dict_get (App.primers_of_type rows kind) k =
  fold_left (fun acc r =>
               if String.eqb k (App.indexname r)
                  && String.eqb (App.str_lower (App.type r)) kind
               then Ok (App.sequence r) else acc) rows (Err KeyError)
  /\ NoDup (dict_keys (App.primers_of_type rows kind)).
Proof.
  unfold App.primers_of_type, App.dict_of_pairs. split.
  - rewrite dict_get_update. apply lookup_last_filter_map.
  - apply nodup_update. constructor.
Qed.

(** Dropping the excluded names: an excluded name is missing, every other
    name keeps its sequence. *)
Theorem drop_excluded_lookup (primers : dict string) (excluded : list string) (k : string) :
  dict_get (App.drop_excluded primers excluded) k =
  if App.py_in k excluded then Err KeyError else dict_get primers k.
Proof.
  unfold App.drop_excluded. induction primers as [|[k0 v0] primers IH]; simpl.
  - destruct (App.py_in k excluded); reflexivity.
  - destruct (App.py_in k0 excluded) eqn:E0; simpl.
    + rewrite IH. destruct (String.eqb_spec k k0) as [->|Hne]; [now rewrite E0|reflexivity].
    + rewrite IH. destruct (String.eqb_spec k k0) as [->|Hne]; [now rewrite E0|reflexivity].
Qed.

(** [{**a, **b}] for two dicts: a name of [b] takes its value in [b],
    other names keep their value in [a]; the result has no duplicate name
    and has [|a|] entries plus one per name of [b] absent from [a] (a name
    in both gives a single entry). *)
Theorem dict_merge_lookup_length (a b : dict string) :
  NoDup (dict_keys a) -> NoDup (dict_keys b) ->
  (forall k, dict_get (App.dict_merge a b) k =
             match dict_get b k with Ok v => Ok v | Err _ => dict_get a k end) /\
  NoDup (dict_keys (App.dict_merge a b)) /\
  List.length (App.dict_merge a b) =
  List.length a + List.length (filter (fun kv => negb (App.py_in (fst kv) (dict_keys a))) b).
Proof.
  intros Ha Hb. unfold App.dict_merge. split; [|split].
  - intros k. rewrite dict_get_update. apply lookup_last_nodup, Hb.
  - apply nodup_update, Ha.
  - apply length_update, Hb.
Qed.

Lemma dict_merge_lookup_length_witness :
  NoDup (dict_keys [("P1", "AAAAAAAA"); ("P2", "CCCCCCCC")]%string) /\
  NoDup (dict_keys [("P2", "GGGGGGGG"); ("P3", "TTTTTTTT")]%string) /\
  List.length (App.dict_merge [("P1", "AAAAAAAA"); ("P2", "CCCCCCCC")]%string
                              [("P2", "GGGGGGGG"); ("P3", "TTTTTTTT")]%string) = 3.
Proof.
  assert (H1 : NoDup (dict_keys [("P1", "AAAAAAAA"); ("P2", "CCCCCCCC")]%string))
    by (repeat constructor; simpl; intuition discriminate).
  assert (H2 : NoDup (dict_keys [("P2", "GGGGGGGG"); ("P3", "TTTTTTTT")]%string))
    by (repeat constructor; simpl; intuition discriminate).
  split; [exact H1 | split; [exact H2 |]].
  destruct (dict_merge_lookup_length _ _ H1 H2) as [_ [_ ->]]. reflexivity.
Defined.

(** ** The export sheets *)

Section ExportProofs.
Import App.

Definition sample_row_of (fwd_pool rev_pool : dict string) (ip : nat * (string * string))
  : result sample_row :=
  let '(i, (fwd, rev)) := ip in
  fseq <- dict_get fwd_pool fwd;;
  rseq <- dict_get rev_pool rev;;
  Ok {| sample := i; forward := fwd; forward_sequence := fseq;
        reverse := rev; reverse_sequence := rseq |}.

Lemma sample_data_as_map (fwd_pool rev_pool : dict string) (pairs : list (string * string)) :
  sample_data fwd_pool rev_pool pairs =
  mapM (sample_row_of fwd_pool rev_pool) (combine (seq 1 (List.length pairs)) pairs).
Proof. reflexivity. Qed.

Lemma sample_rows_ok (fwd_pool rev_pool : dict string) (pairs : list (string * string)) :
  (forall p, In p pairs -> In (fst p) (dict_keys fwd_pool) /\ In (snd p) (dict_keys rev_pool)) ->
  forall s, exists rows,
    mapM (sample_row_of fwd_pool rev_pool) (combine (seq s (List.length pairs)) pairs) = Ok rows
    /\ List.length rows = List.length pairs
    /\ forall i r, nth_error rows i = Some r ->
         sample r = s + i /\ nth_error pairs i = Some (forward r, reverse r)
         /\ dict_get fwd_pool (forward r) = Ok (forward_sequence r)
         /\ dict_get rev_pool (reverse r) = Ok (reverse_sequence r).
Proof.
  induction pairs as [|[f r] pairs IH]; intros Hin s.
  - exists []. split; [reflexivity | split; [reflexivity|]]. intros [|i] r' H; discriminate.
  - destruct (Hin (f, r) (or_introl eq_refl)) as [Hf Hr]. simpl in Hf, Hr.
    destruct (dict_get_in_keys _ _ Hf) as [fs [Hfs _]].
    destruct (dict_get_in_keys _ _ Hr) as [rs [Hrs _]].
    destruct (IH (fun p Hp => Hin p (or_intror Hp)) (S s)) as [rows [Hrun [Hl Hp]]].
    eexists. simpl. rewrite Hfs, Hrs. simpl. rewrite Hrun. simpl.
    split; [reflexivity | split; [simpl; congruence|]].
    intros [|i] row Hrow; simpl in Hrow.
    + inversion Hrow; subst. simpl. repeat split; auto; lia.
    + destruct (Hp i row Hrow) as [H1 [H2 [H3 H4]]]. repeat split; auto; lia.
Qed.

Lemma primer_rows_ok (pool : dict string) (dir : string) (names : list string) :
  (forall k, In k names -> In k (dict_keys pool)) ->
  exists rows,
    mapM (fun k => s <- dict_get pool k;;
            Ok {| id := k; direction := dir; nucleotide_sequence := s |}) names = Ok rows
    /\ List.length rows = List.length names.
Proof.
  induction names as [|k names IH]; intros Hin; [exists []; auto|].
  destruct (dict_get_in_keys pool k (Hin k (or_introl eq_refl))) as [s [Hs _]].
  destruct IH as [rows [Hrun Hl]]; [intros x Hx; apply Hin; right; exact Hx|].
  eexists. simpl. rewrite Hs. simpl. rewrite Hrun. simpl. split; [reflexivity | simpl; congruence].
Qed.

Lemma selected_in_keys (mk : string -> ExactSelector.var) (pool : dict string)
  (rep : ExactSelector.solver_report) (k : string) :
  In k (ExactSelector.selected_primers mk pool rep) -> In k (dict_keys pool).
Proof. unfold ExactSelector.selected_primers. rewrite filter_In. tauto. Qed.

Lemma in_firstn {A : Type} (n : nat) (l : list A) (x : A) : In x (firstn n l) -> In x l.
Proof. intros H. rewrite <- (firstn_skipn n l). apply in_or_app. left. exact H. Qed.

Lemma new_assigned_pairs_list_prod (fs rs : list string) (n : nat) :
  PairAssignment.new_assigned_pairs fs rs n = firstn n (list_prod fs rs).
Proof.
  unfold PairAssignment.new_assigned_pairs. rewrite comprehension_is_list_prod.
  destruct (Nat.ltb_spec (List.length (list_prod fs rs)) n) as [Hlt|Hge]; [|reflexivity].
  rewrite firstn_all, firstn_all2; [reflexivity | lia].
Qed.

End ExportProofs.

(** The two sheets of [create_combined_excel] for the selection of the
    exact selector: they never raise [KeyError]. The pair sheet has
    [min(num_new_samples, |forward| * |reverse|)] rows, numbered from 1, row
    [i] carrying pair [i] and the pools' sequences of its two names; the
    primer sheet has one row per selected primer. *)
Theorem combined_excel_sheets (fwd rev : dict string) (nf nr : Z)
  (used : list (string * string)) (rep : ExactSelector.solver_report)
  (sf sr : list string) (n : nat) :
  ExactSelector.exact_select fwd rev nf nr used rep = Ok (sf, sr) ->
  let pairs := PairAssignment.new_assigned_pairs sf sr n in
  (exists rows, App.sample_data fwd rev pairs = Ok rows
     /\ List.length rows = Nat.min n (List.length sf * List.length sr)
     /\ forall i r, nth_error rows i = Some r ->
          App.sample r = S i /\ nth_error pairs i = Some (App.forward r, App.reverse r)
          /\ dict_get fwd (App.forward r) = Ok (App.forward_sequence r)
          /\ dict_get rev (App.reverse r) = Ok (App.reverse_sequence r))
  /\ (exists entries, App.primer_data fwd rev sf sr = Ok entries
        /\ List.length entries = List.length sf + List.length sr).
Proof.
  intros Hsel pairs.
  unfold ExactSelector.exact_select in Hsel.
  destruct (ExactSelector.build_problem _ _ _ _ _); simpl in Hsel; [|discriminate].
  inversion Hsel; subst sf sr; clear Hsel.
  split.
  - assert (Hin : forall p, In p pairs -> In (fst p) (dict_keys fwd) /\ In (snd p) (dict_keys rev)).
    { intros [f r] Hp. unfold pairs in Hp. rewrite new_assigned_pairs_list_prod in Hp.
      apply in_firstn, in_prod_iff in Hp as [Hf Hr].
      split; eapply selected_in_keys; eassumption. }
    destruct (sample_rows_ok fwd rev pairs Hin 1) as [rows [Hrun [Hl Hp]]].
    exists rows. rewrite sample_data_as_map. split; [exact Hrun | split].
    + rewrite Hl. unfold pairs. rewrite new_assigned_pairs_list_prod, length_firstn, length_prod.
      reflexivity.
    + intros i r Hr. destruct (Hp i r Hr) as [H1 H2]. split; [lia | exact H2].
  - destruct (primer_rows_ok fwd "Forward" (ExactSelector.selected_primers ExactSelector.FVar fwd rep))
      as [frows [Hf Hfl]]; [intros k; apply selected_in_keys|].
    destruct (primer_rows_ok rev "Reverse" (ExactSelector.selected_primers ExactSelector.RVar rev rep))
      as [rrows [Hr Hrl]]; [intros k; apply selected_in_keys|].
    exists (frows ++ rrows). unfold App.primer_data. rewrite Hf. simpl. rewrite Hr. simpl.
    split; [reflexivity | rewrite length_app; congruence].
Qed.

Lemma combined_excel_sheets_witness :
  ExactSelector.exact_select Scenarios.fwd_two Scenarios.rev_two 1 1 Scenarios.used_f1_r2
    (ExactSelector.report_of ExactSelector.Optimal Scenarios.val_f1_r1) = Ok (["F1"], ["R1"])%string /\
  exists rows, App.sample_data Scenarios.fwd_two Scenarios.rev_two
                 (PairAssignment.new_assigned_pairs ["F1"] ["R1"] 5)%string = Ok rows
               /\ List.length rows = 1.
Proof.
  assert (H : ExactSelector.exact_select Scenarios.fwd_two Scenarios.rev_two 1 1 Scenarios.used_f1_r2
    (ExactSelector.report_of ExactSelector.Optimal Scenarios.val_f1_r1) = Ok (["F1"], ["R1"])%string)
    by (vm_compute; reflexivity).
  split; [exact H|].
  destruct (combined_excel_sheets _ _ _ _ _ _ _ _ 5 H) as [[rows [Hrun [Hl _]]] _].
  exists rows. split; [exact Hrun | exact Hl].
Defined.

(** ** Frequency tables, counters and their sum *)

Section RaggedProofs.
Import FrequencyModel.

(** The number of sequences of [vals] whose character at [p] is [k]. *)
Definition count_at (p : nat) (k : ascii) (vals : list string) : nat :=
  List.length (filter (fun s => match nth_error (chars s) p with
                                | Some ch => Ascii.eqb ch k
                                | None => false
                                end) vals).

Lemma nth_error_chars_lt (s : string) (p : nat) :
  p < String.length s -> nth_error (chars s) p = Some (nth p (chars s) "000"%char).
Proof.
  intros Hp. apply nth_error_nth'. rewrite chars_length. exact Hp.
Qed.

Lemma nth_error_chars_ge (s : string) (p : nat) :
  String.length s <= p -> nth_error (chars s) p = None.
Proof. intros Hp. apply nth_error_None. rewrite chars_length. exact Hp. Qed.

Lemma process_ragged (vals : list string) : forall tbl,
  Forall (fun s => String.length s <= List.length tbl) vals ->
  exists tbl', process vals (Ok tbl) = Ok tbl' /\ List.length tbl' = List.length tbl /\
    forall p c, nth_error tbl p = Some c -> exists c',
      nth_error tbl' p = Some c' /\
      (forall k, counter_get c' k = counter_get c k + count_at p k vals) /\
      list_sum (counter_values c') = list_sum (counter_values c)
        + List.length (filter (fun s => p <? String.length s) vals) /\
      (NoDup (map fst c) -> NoDup (map fst c')).
Proof.
  induction vals as [|s vals IH]; intros tbl Hall.
  - exists tbl. split; [reflexivity | split; [reflexivity|]].
    intros p c Hc. exists c. unfold count_at. simpl.
    split; [exact Hc | split; [intros; lia | split; [lia | auto]]].
  - inversion Hall as [|x l Hs Hrest]; subst.
    destruct (add_sequence_ok (chars s) tbl ltac:(rewrite chars_length; exact Hs))
      as [tbl1 [Hrun [Hl Hp1]]].
    unfold process. simpl. rewrite Hrun.
    destruct (IH tbl1 ltac:(rewrite Hl; exact Hrest)) as [tbl2 [Hrun2 [Hl2 Hp2]]].
    exists tbl2. split; [exact Hrun2 | split; [congruence|]].
    intros p c Hc. pose proof (Hp1 p c Hc) as Hc1. rewrite chars_length in Hc1.
    destruct (Hp2 p _ Hc1) as [c' [Hc' [Hget [Hsum Hnd]]]].
    exists c'. split; [exact Hc'|].
    unfold count_at in *. simpl.
    destruct (Nat.ltb_spec p (String.length s)) as [Hlt|Hge].
    + rewrite (nth_error_chars_lt s p Hlt). split; [|split].
      * intros k. rewrite Hget, counter_get_incr.
        destruct (ascii_dec (nth p (chars s) "000"%char) k) as [<-|Hne].
        -- rewrite Ascii.eqb_refl. simpl. lia.
        -- apply Ascii.eqb_neq in Hne. rewrite Hne. lia.
      * rewrite Hsum, counter_values_incr. simpl. lia.
      * intros H. apply Hnd, counter_nodup_incr, H.
    + rewrite (nth_error_chars_ge s p Hge). split; [exact Hget | split; [exact Hsum | exact Hnd]].
Qed.

(** [calculate_nucleotide_frequencies] on a dict whose first sequence is
    the longest (the case where it returns a table). *)
Lemma calculate_ragged (n0 s0 : string) (rest : dict string) :
  Forall (fun s => String.length s <= String.length s0) (dict_values rest) ->
  exists tbl, calculate_nucleotide_frequencies ((n0, s0) :: rest) = Ok tbl /\
    List.length tbl = String.length s0 /\
    forall p c, nth_error tbl p = Some c ->
      (forall k, counter_get c k = count_at p k (s0 :: dict_values rest)) /\
      list_sum (counter_values c)
        = List.length (filter (fun s => p <? String.length s) (s0 :: dict_values rest)) /\
      NoDup (map fst c).
Proof.
  intros Hall. rewrite calculate_cons.
  destruct (process_ragged (s0 :: dict_values rest) (repeat [] (String.length s0)))
    as [tbl [Hrun [Hl Hp]]].
  { rewrite repeat_length. constructor; [lia | exact Hall]. }
  exists tbl. split; [exact Hrun | split; [rewrite Hl; apply repeat_length|]].
  intros p c Hc.
  assert (HpL : p < String.length s0).
  { assert (Htl : List.length tbl = String.length s0) by (rewrite Hl; apply repeat_length).
    rewrite <- Htl. apply nth_error_Some. congruence. }
  destruct (Hp p [] ltac:(apply nth_error_repeat; exact HpL)) as [c' [Hc' [Hget [Hsum Hnd]]]].
  rewrite Hc in Hc'. inversion Hc'; subst c'.
  split; [exact Hget | split; [exact Hsum | apply Hnd; constructor]].
Qed.

End RaggedProofs.

(** C6 (amended): [calculate_nucleotide_frequencies] neither normalises
    case nor checks the alphabet or the lengths. An empty dict raises
    [StopIteration]; otherwise a table is returned exactly when no sequence
    is longer than the first one, and a longer sequence raises
    [IndexError]. The table has one counter per character of the first
    sequence, and counter [p] gives every character [k], whatever it is,
    the number of sequences whose character at [p] is [k]: a shorter
    sequence only adds to the positions it covers. *)
Theorem frequencies_without_validation (n0 s0 : string) (rest : dict string) :
  FrequencyModel.calculate_nucleotide_frequencies [] = Err StopIteration /\
  ((exists tbl, FrequencyModel.calculate_nucleotide_frequencies ((n0, s0) :: rest) = Ok tbl)
   <-> Forall (fun s => String.length s <= String.length s0) (dict_values rest)) /\
  (Forall (fun s => String.length s <= String.length s0) (dict_values rest) ->
   exists tbl, FrequencyModel.calculate_nucleotide_frequencies ((n0, s0) :: rest) = Ok tbl /\
     List.length tbl = String.length s0 /\
     forall p c k, nth_error tbl p = Some c ->
       FrequencyModel.counter_get c k = count_at p k (s0 :: dict_values rest)) /\
  (Exists (fun s => String.length s0 < String.length s) (dict_values rest) ->
   FrequencyModel.calculate_nucleotide_frequencies ((n0, s0) :: rest) = Err IndexError).
Proof.
  assert (Herr : Exists (fun s => String.length s0 < String.length s) (dict_values rest) ->
                 FrequencyModel.calculate_nucleotide_frequencies ((n0, s0) :: rest)
                 = Err IndexError).
  { intros Hex. rewrite calculate_cons.
    apply process_err. rewrite repeat_length. apply Exists_cons_tl. exact Hex. }
  split; [reflexivity | split; [split | split; [| exact Herr]]].
  - intros [tbl Hrun].
    destruct (Forall_Exists_dec (fun s => String.length s <= String.length s0)
                (fun s => le_dec (String.length s) (String.length s0)) (dict_values rest))
      as [Hall|Hex]; [exact Hall|].
    exfalso. rewrite Herr in Hrun; [discriminate|].
    apply Exists_exists in Hex as [s [Hin Hs]]. apply Exists_exists.
    exists s. split; [exact Hin | lia].
  - intros Hall. destruct (calculate_ragged n0 s0 rest Hall) as [tbl [Hrun _]].
    exists tbl. exact Hrun.
  - intros Hall. destruct (calculate_ragged n0 s0 rest Hall) as [tbl [Hrun [Hl Hp]]].
    exists tbl. split; [exact Hrun | split; [exact Hl|]].
    intros p c k Hc. exact (proj1 (Hp p c Hc) k).
Qed.

(** [calculate_nucleotide_frequencies] when the first sequence is at least
    as long as every other one: the table has one counter per character of
    the first sequence, counter [p] counts each character by the number of
    sequences holding it at position [p] (a sequence shorter than [p + 1]
    adds nothing there), and its counts sum to the number of sequences
    longer than [p]. *)
Theorem frequencies_of_unequal_lengths (n0 s0 : string) (rest : dict string) :
  Forall (fun s => String.length s <= String.length s0) (dict_values rest) ->
  exists tbl, FrequencyModel.calculate_nucleotide_frequencies ((n0, s0) :: rest) = Ok tbl /\
    List.length tbl = String.length s0 /\
    forall p c, nth_error tbl p = Some c ->
      (forall k, FrequencyModel.counter_get c k = count_at p k (s0 :: dict_values rest)) /\
      list_sum (FrequencyModel.counter_values c)
        = List.length (filter (fun s => p <? String.length s) (s0 :: dict_values rest)).
Proof.
  intros Hall. destruct (calculate_ragged n0 s0 rest Hall) as [tbl [Hrun [Hl Hp]]].
  exists tbl. split; [exact Hrun | split; [exact Hl|]].
  intros p c Hc. destruct (Hp p c Hc) as [H1 [H2 _]]. split; assumption.
Qed.

Lemma frequencies_of_unequal_lengths_witness :
  Forall (fun s => String.length s <= String.length "ACGTACGT")
    (dict_values [("P2", "ACGT")]%string) /\
  exists tbl, FrequencyModel.calculate_nucleotide_frequencies
                [("P1", "ACGTACGT"); ("P2", "ACGT")]%string = Ok tbl /\
    List.length tbl = 8.
Proof.
  assert (H : Forall (fun s => String.length s <= String.length "ACGTACGT")
                (dict_values [("P2", "ACGT")]%string)) by (repeat constructor).
  split; [exact H|].
  destruct (frequencies_of_unequal_lengths "P1" "ACGTACGT" _ H) as [tbl [Hrun [Hl _]]].
  exists tbl. split; [exact Hrun | exact Hl].
Defined.

Section CounterAddProofs.
Import FrequencyModel.

Lemma counter_mem_In (c : counter) (k : ascii) : counter_mem c k = true <-> In k (map fst c).
Proof.
  unfold counter_mem. rewrite existsb_exists. split.
  - intros [kv [Hin Heq]]. apply Ascii.eqb_eq in Heq. subst. apply in_map, Hin.
  - intros Hin. apply in_map_iff in Hin as [kv [<- Hin]]. exists kv.
    split; [exact Hin | apply Ascii.eqb_refl].
Qed.

Lemma counter_add_as (self other : counter) :
  counter_add self other =
  flat_map (fun kv => if 0 <? snd kv + counter_get other (fst kv)
                      then [(fst kv, snd kv + counter_get other (fst kv))] else []) self
  ++ filter (fun kv => negb (counter_mem self (fst kv)) && (0 <? snd kv)) other.
Proof.
  unfold counter_add. f_equal.
  assert (H : forall acc,
    fold_left (fun acc kv =>
                 let newcount := snd kv + counter_get other (fst kv) in
                 if 0 <? newcount then acc ++ [(fst kv, newcount)] else acc) self acc
    = acc ++ flat_map (fun kv => if 0 <? snd kv + counter_get other (fst kv)
                      then [(fst kv, snd kv + counter_get other (fst kv))] else []) self).
  { induction self as [|kv self IH]; intros acc; simpl; [now rewrite app_nil_r|].
    rewrite IH. destruct (0 <? _); simpl; [now rewrite <- app_assoc | reflexivity]. }
  exact (H []).
Qed.

Lemma counter_get_kept (self other rest : counter) (k : ascii) :
  NoDup (map fst self) ->
  (counter_mem self k = true -> counter_get rest k = 0) ->
  counter_get
    (flat_map (fun kv => if 0 <? snd kv + counter_get other (fst kv)
                         then [(fst kv, snd kv + counter_get other (fst kv))] else []) self
     ++ rest) k
  = if counter_mem self k then counter_get self k + counter_get other k
    else counter_get rest k.
Proof.
  induction self as [|[k0 v0] self IH]; intros Hnd Hrest; simpl; [reflexivity|].
  inversion Hnd as [|x l Hx Hl]; subst.
  unfold counter_mem in *. simpl in *.
  destruct (Ascii.eqb_spec k k0) as [->|Hne].
  - rewrite Ascii.eqb_refl. simpl.
    destruct (Nat.ltb_spec 0 (v0 + counter_get other k0)) as [Hpos|Hz]; simpl.
    + rewrite Ascii.eqb_refl. reflexivity.
    + rewrite IH by (auto; intros H; exfalso; apply Hx, counter_mem_In, H).
      assert (Hm : existsb (fun kv => Ascii.eqb (fst kv) k0) self = false).
      { apply not_true_iff_false. intros H. apply Hx, counter_mem_In, H. }
      rewrite Hm. rewrite Hrest by (rewrite Ascii.eqb_refl; reflexivity). lia.
  - assert (Hk : Ascii.eqb k0 k = false) by (apply Ascii.eqb_neq; congruence).
    rewrite Hk in Hrest |- *. simpl in Hrest |- *.
    destruct (0 <? v0 + counter_get other k0); simpl;
      [apply Ascii.eqb_neq in Hne; rewrite Hne|]; apply IH; auto.
Qed.

Lemma counter_get_filter_out (l : counter) (f : ascii * nat -> bool) (k : ascii) :
  (forall kv, In kv l -> fst kv = k -> f kv = false) -> counter_get (filter f l) k = 0.
Proof.
  induction l as [|[k0 v0] l IH]; intros H; simpl; [reflexivity|].
  destruct (f (k0, v0)) eqn:Ef; simpl.
  - destruct (Ascii.eqb_spec k k0) as [->|Hne].
    + rewrite (H (k0, v0) (or_introl eq_refl) eq_refl) in Ef. discriminate.
    + apply IH. intros kv Hkv. apply H. right. exact Hkv.
  - apply IH. intros kv Hkv. apply H. right. exact Hkv.
Qed.

Lemma counter_get_filter_pos (l : counter) (f : ascii * nat -> bool) (k : ascii) :
  NoDup (map fst l) ->
  (forall kv, In kv l -> fst kv = k -> f kv = (0 <? snd kv)) ->
  counter_get (filter f l) k = counter_get l k.
Proof.
  induction l as [|[k0 v0] l IH]; intros Hnd H; simpl; [reflexivity|].
  inversion Hnd as [|x l' Hx Hl]; subst.
  assert (IH' : counter_get (filter f l) k = counter_get l k).
  { apply IH; [exact Hl|]. intros kv Hkv. apply H. right. exact Hkv. }
  destruct (Ascii.eqb_spec k k0) as [->|Hne].
  - rewrite (H (k0, v0) (or_introl eq_refl) eq_refl). simpl.
    destruct (Nat.ltb_spec 0 v0); simpl.
    + rewrite Ascii.eqb_refl. reflexivity.
    + rewrite IH', counter_get_absent by exact Hx. lia.
  - destruct (f (k0, v0)); simpl; [|exact IH'].
    apply Ascii.eqb_neq in Hne. rewrite Hne. exact IH'.
Qed.

Lemma counter_add_get (a b : counter) (k : ascii) :
  NoDup (map fst a) -> NoDup (map fst b) ->
  counter_get (counter_add a b) k = counter_get a k + counter_get b k.
Proof.
  intros Ha Hb. rewrite counter_add_as, counter_get_kept by
    (auto; intros Hm; apply counter_get_filter_out; intros kv _ Hkv;
     rewrite Hkv, Hm; reflexivity).
  destruct (counter_mem a k) eqn:Em; [reflexivity|].
  rewrite (counter_get_absent a k)
    by (intros H; apply (proj2 (counter_mem_In _ _)) in H; congruence).
  rewrite counter_get_filter_pos; [reflexivity | exact Hb|].
  intros kv _ Hkv. rewrite Hkv, Em. reflexivity.
Qed.

End CounterAddProofs.

(** [Counter.__add__] on counters without repeated keys (every counter the
    code builds): the count of each character is the sum of its counts in
    the two operands, a missing character counting 0. *)
Theorem counter_add_counts (a b : FrequencyModel.counter) (k : ascii) :
  NoDup (map fst a) -> NoDup (map fst b) ->
  FrequencyModel.counter_get (FrequencyModel.counter_add a b) k
  = FrequencyModel.counter_get a k + FrequencyModel.counter_get b k.
Proof. apply counter_add_get. Qed.

Lemma counter_add_counts_witness :
  NoDup (map fst [("A"%char, 2); ("C"%char, 1)]) /\ NoDup (map fst [("C"%char, 3)]) /\
  FrequencyModel.counter_get
    (FrequencyModel.counter_add [("A"%char, 2); ("C"%char, 1)] [("C"%char, 3)]) "C"%char = 4.
Proof.
  assert (H1 : NoDup (map fst [("A"%char, 2); ("C"%char, 1)]))
    by (repeat constructor; simpl; intuition discriminate).
  assert (H2 : NoDup (map fst [("C"%char, 3)])) by (repeat constructor; simpl; tauto).
  split; [exact H1 | split; [exact H2 |]].
  rewrite (counter_add_counts _ _ "C"%char H1 H2). reflexivity.
Defined.

Section MapMProofs.

Lemma mapM_only_err {A B : Type} (f : A -> result B) (e : py_error) (l : list A) :
  (forall x, In x l -> (exists b, f x = Ok b) \/ f x = Err e) ->
  (exists x, In x l /\ f x = Err e) -> mapM f l = Err e.
Proof.
  induction l as [|x l IH]; intros Hall [y [Hy Hfy]]; [destruct Hy|].
  simpl. destruct (Hall x (or_introl eq_refl)) as [[b Hb]|Hb]; rewrite Hb; simpl; [|reflexivity].
  destruct Hy as [->|Hy]; [congruence|].
  rewrite IH; [reflexivity | intros z Hz; apply Hall; right; exact Hz | exists y; auto].
Qed.

Lemma mapM_ok_inv {A B : Type} (f : A -> result B) (l : list A) :
  forall bs, mapM f l = Ok bs -> Forall2 (fun x b => f x = Ok b) l bs.
Proof.
  induction l as [|x l IH]; intros bs H; simpl in H.
  - inversion H. constructor.
  - destruct (f x) as [b|e] eqn:Hf; simpl in H; [|discriminate].
    destruct (mapM f l) as [bs'|e] eqn:Hl; simpl in H; [|discriminate].
    inversion H; subst. constructor; [exact Hf | apply IH; reflexivity].
Qed.

End MapMProofs.

Section SelectorProofs.
Import FrequencyModel StochasticSelector.

Lemma dict_get_err {V : Type} (d : dict V) (k : string) (e : py_error) :
  dict_get d k = Err e -> e = KeyError.
Proof.
  induction d as [|[k0 v0] d IH]; simpl; [congruence|].
  destruct (String.eqb k k0); [discriminate | exact IH].
Qed.

Lemma is_sample_spec (population : list string) (k : nat) (s : list string) :
  is_sample population k s = true ->
  List.length s = k /\ forall x, In x s -> In x population.
Proof.
  unfold is_sample. rewrite !andb_true_iff. intros [[Hl _] Hall].
  split; [apply Nat.eqb_eq, Hl|].
  intros x Hx. rewrite forallb_forall in Hall. specialize (Hall x Hx).
  apply existsb_exists in Hall as [y [Hy Heq]]. apply String.eqb_eq in Heq. subst. exact Hy.
Qed.

Lemma select_keys_ok (pool : dict string) (keys : list string) :
  (forall x, In x keys -> In x (dict_keys pool)) ->
  exists d, select_keys pool keys = Ok d /\ dict_keys d = keys /\
    forall k v, In (k, v) d -> dict_get pool k = Ok v.
Proof.
  induction keys as [|k keys IH]; intros Hin.
  - exists []. split; [reflexivity | split; [reflexivity | intros k v []]].
  - destruct (dict_get_in_keys pool k (Hin k (or_introl eq_refl))) as [v [Hv _]].
    destruct IH as [d [Hrun [Hk Hp]]]; [intros x Hx; apply Hin; right; exact Hx|].
    exists ((k, v) :: d). unfold select_keys in *. simpl. rewrite Hv. simpl. rewrite Hrun. simpl.
    split; [reflexivity | split; [simpl; congruence|]].
    intros k' v' [Heq|Hin']; [inversion Heq; subst; exact Hv | apply Hp, Hin'].
Qed.

Lemma select_keys_missing (pool : dict string) (keys : list string) :
  Exists (fun x => ~ In x (dict_keys pool)) keys -> select_keys pool keys = Err KeyError.
Proof.
  intros Hex. unfold select_keys. apply mapM_only_err.
  - intros x _. destruct (dict_get pool x) as [v|e] eqn:Hv; simpl.
    + left. eexists. reflexivity.
    + right. apply dict_get_err in Hv. subst. reflexivity.
  - apply Exists_exists in Hex as [x [Hx Hnot]]. exists x. split; [exact Hx|].
    destruct (dict_get pool x) as [v|e] eqn:Hv.
    + exfalso. apply Hnot. apply dict_get_ok_in in Hv. apply in_map_iff. exists (x, v). auto.
    + simpl. apply dict_get_err in Hv. subst. reflexivity.
Qed.

Lemma selected_values_length (pool d : dict string) :
  Forall (fun s => String.length s = 8) (dict_values pool) ->
  (forall k v, In (k, v) d -> dict_get pool k = Ok v) ->
  Forall (fun s => String.length s = 8) (dict_values d).
Proof.
  intros Hpool Hd. apply Forall_forall. intros v Hv.
  unfold dict_values in Hv. apply in_map_iff in Hv as [[k v'] [Heq Hin]]. simpl in Heq. subst v'.
  apply Hd, dict_get_ok_in in Hin. rewrite Forall_forall in Hpool.
  apply Hpool. apply in_map_iff. exists (k, v). auto.
Qed.

(** The table of a non-empty dict of sequences of length 8. *)
Lemma table_of_eight (d : dict string) :
  d <> [] -> Forall (fun s => String.length s = 8) (dict_values d) ->
  exists tbl, calculate_nucleotide_frequencies d = Ok tbl /\ List.length tbl = 8 /\
    forall p c, nth_error tbl p = Some c ->
      (forall k, counter_get c k = count_at p k (dict_values d)) /\ NoDup (map fst c).
Proof.
  intros Hne Hall. destruct d as [|[n0 s0] rest]; [congruence|].
  simpl in Hall. inversion Hall as [|x l Hs0 Hrest]; subst.
  destruct (calculate_ragged n0 s0 rest) as [tbl [Hrun [Hl Hp]]].
  { eapply Forall_impl; [|exact Hrest]. simpl. intros s Hs. lia. }
  exists tbl. split; [exact Hrun | split; [congruence|]].
  intros p c Hc. destruct (Hp p c Hc) as [H1 [_ H3]]. split; [exact H1 | exact H3].
Qed.

Lemma combine_frequencies_ok (ff rf : list counter) :
  8 <= List.length ff -> 8 <= List.length rf ->
  combine_frequencies ff rf
  = Ok (map (fun i => counter_add (nth i ff []) (nth i rf [])) (seq 0 8)).
Proof.
  intros Hf Hr. unfold combine_frequencies. apply mapM_ok.
  intros i Hi. apply in_seq in Hi.
  unfold nth_result. rewrite (nth_error_nth' ff []), (nth_error_nth' rf []) by lia.
  reflexivity.
Qed.

Lemma combine_frequencies_short (ff rf : list counter) :
  List.length ff < 8 \/ List.length rf < 8 -> combine_frequencies ff rf = Err IndexError.
Proof.
  intros Hshort. unfold combine_frequencies. apply mapM_only_err.
  - intros i _. unfold nth_result.
    destruct (nth_error ff i), (nth_error rf i); simpl; eauto.
  - destruct Hshort as [Hs|Hs].
    + exists (List.length ff). split; [apply in_seq; lia|].
      unfold nth_result. rewrite (proj2 (nth_error_None ff _) (le_n _)). reflexivity.
    + exists (List.length rf). split; [apply in_seq; lia|].
      unfold nth_result. destruct (nth_error ff (List.length rf)); simpl; [|reflexivity].
      rewrite (proj2 (nth_error_None rf _) (le_n _)). reflexivity.
Qed.

Lemma nth_map_seq_counter (f : nat -> counter) (p : nat) :
  p < 8 -> nth p (map f (seq 0 8)) [] = f p.
Proof.
  intros Hp. rewrite nth_indep with (d' := f 0) by (rewrite length_map, length_seq; exact Hp).
  rewrite map_nth, seq_nth by exact Hp. reflexivity.
Qed.

Lemma trial_valid (fwd rev : dict string) (nf nr : nat) (d : draw) :
  Forall (fun s => String.length s = 8) (dict_values fwd) ->
  Forall (fun s => String.length s = 8) (dict_values rev) ->
  1 <= nf -> 1 <= nr -> valid_draw fwd rev nf nr d = true ->
  exists sf sr tf,
    trial fwd rev nf nr d =
      Ok ((sf, sr), calculate_diversity_score tf (Z.of_nat (nf + nr)), tf) /\
    dict_keys sf = fst d /\ dict_keys sr = snd d /\
    (forall k v, In (k, v) sf -> dict_get fwd k = Ok v) /\
    (forall k v, In (k, v) sr -> dict_get rev k = Ok v) /\
    List.length tf = 8 /\
    forall p k, p < 8 ->
      counter_get (nth p tf []) k = count_at p k (dict_values sf) + count_at p k (dict_values sr).
Proof.
  intros Hf8 Hr8 Hnf Hnr Hd.
  unfold valid_draw in Hd. apply andb_true_iff in Hd as [Hdf Hdr].
  apply is_sample_spec in Hdf as [Hlf Hinf], Hdr as [Hlr Hinr].
  destruct (select_keys_ok fwd (fst d) Hinf) as [sf [Hsf [Hkf Hvf]]].
  destruct (select_keys_ok rev (snd d) Hinr) as [sr [Hsr [Hkr Hvr]]].
  assert (Hnef : sf <> []).
  { intros ->. simpl in Hkf. rewrite <- Hkf in Hlf. simpl in Hlf. lia. }
  assert (Hner : sr <> []).
  { intros ->. simpl in Hkr. rewrite <- Hkr in Hlr. simpl in Hlr. lia. }
  destruct (table_of_eight sf Hnef (selected_values_length _ _ Hf8 Hvf)) as [ff [Hff [Hlff Hpf]]].
  destruct (table_of_eight sr Hner (selected_values_length _ _ Hr8 Hvr)) as [rf [Hrf [Hlrf Hpr]]].
  exists sf, sr, (map (fun i => counter_add (nth i ff []) (nth i rf [])) (seq 0 8)).
  unfold trial. rewrite Hsf. cbn [bind]. rewrite Hsr. cbn [bind].
  rewrite Hff. cbn [bind]. rewrite Hrf. cbn [bind].
  rewrite combine_frequencies_ok by lia. cbn [bind].
  split; [reflexivity|]. split; [exact Hkf|]. split; [exact Hkr|].
  split; [exact Hvf|]. split; [exact Hvr|]. split; [now rewrite length_map, length_seq|].
  intros p k Hp. rewrite nth_map_seq_counter by exact Hp.
  destruct (Hpf p (nth p ff [])) as [Hgf Hndf]; [apply nth_error_nth'; lia|].
  destruct (Hpr p (nth p rf [])) as [Hgr Hndr]; [apply nth_error_nth'; lia|].
  rewrite counter_add_get by assumption. rewrite Hgf, Hgr. reflexivity.
Qed.

End SelectorProofs.

Section SearchProofs.
Import FrequencyModel StochasticSelector.
Variables (fwd rev : dict string) (nf nr : nat) (draws : nat -> draw).

(** The trial of iteration [t]. *)
Definition run (t : nat) : result (selection * Q * list counter) :=
  trial fwd rev nf nr (draws t).

(** After iterations [0 .. t - 1]: nothing recorded before the first one;
    then the best is the result of some iteration [t0], no score of an
    iteration so far is below it, and every iteration before [t0] scored
    strictly more. *)
Definition search_inv (t : nat) (st : search_state) : Prop :=
  (t = 0 /\ best_score st = None /\ best_combination st = None) \/
  exists t0 best score tf0,
    t0 < t /\ best_score st = Some score /\ best_combination st = Some best /\
    run t0 = Ok (best, score, tf0) /\
    (forall i sel s tf, i < t -> run i = Ok (sel, s, tf) -> (score <= s)%Q) /\
    (forall i sel s tf, i < t0 -> run i = Ok (sel, s, tf) -> (score < s)%Q).

Lemma search_inv_step (t : nat) (st : search_state) (sel : selection) (score : Q)
  (tf : list counter) :
  search_inv t st -> run t = Ok (sel, score, tf) ->
  search_inv (S t)
    (if improves score (best_score st)
     then {| best_score := Some score; best_combination := Some sel;
             last_total_frequencies := Some tf |}
     else {| best_score := best_score st; best_combination := best_combination st;
             last_total_frequencies := Some tf |}).
Proof.
  intros Hinv Hrun.
  destruct Hinv as [[-> [Hb Hc]]|[t0 [best [b [tf0 [Ht0 [Hb [Hc [Hr0 [Hle Hlt]]]]]]]]]].
  - rewrite Hb. simpl. right. exists 0, sel, score, tf.
    split; [lia|]. split; [reflexivity|]. split; [reflexivity|]. split; [exact Hrun|].
    split.
    + intros i sel' s tf' Hi Hi'. assert (i = 0) by lia. subst i.
      rewrite Hrun in Hi'. inversion Hi'; subst. apply Qle_refl.
    + intros i sel' s tf' Hi. lia.
  - rewrite Hb. unfold improves.
    destruct (Qle_bool b score) eqn:E; simpl.
    + apply Qle_bool_iff in E. right. exists t0, best, b, tf0.
      split; [lia|]. split; [reflexivity|]. split; [exact Hc|]. split; [exact Hr0|].
      split; [|exact Hlt].
      intros i sel' s tf' Hi Hi'. destruct (Nat.eq_dec i t) as [->|Hne].
      * rewrite Hrun in Hi'. inversion Hi'; subst. exact E.
      * apply (Hle i sel' s tf'); [lia | exact Hi'].
    + right. exists t, sel, score, tf.
      assert (Hsb : (score < b)%Q).
      { apply Qnot_le_lt. intros H. apply Qle_bool_iff in H. congruence. }
      split; [lia|]. split; [reflexivity|]. split; [reflexivity|]. split; [exact Hrun|].
      split.
      * intros i sel' s tf' Hi Hi'. destruct (Nat.eq_dec i t) as [->|Hne].
        -- rewrite Hrun in Hi'. inversion Hi'; subst. apply Qle_refl.
        -- pose proof (Hle i sel' s tf' ltac:(lia) Hi'). lra.
      * intros i sel' s tf' Hi Hi'. pose proof (Hle i sel' s tf' Hi Hi'). lra.
Qed.

Lemma trials_inv (k : nat) : forall t st,
  search_inv t st ->
  (forall i, t <= i < t + k -> exists r, run i = Ok r) ->
  exists st', trials fwd rev nf nr draws k t st = Ok st' /\ search_inv (t + k) st' /\
    (1 <= k -> exists sel s tf, run (t + k - 1) = Ok (sel, s, tf) /\
                                last_total_frequencies st' = Some tf).
Proof.
  induction k as [|k IH]; intros t st Hinv Hok.
  - exists st. rewrite Nat.add_0_r. split; [reflexivity | split; [exact Hinv | lia]].
  - destruct (Hok t ltac:(lia)) as [[[sel score] tf] Hrun].
    simpl. unfold run in Hrun. rewrite Hrun. cbn [bind].
    pose proof (search_inv_step t st sel score tf Hinv Hrun) as Hinv'.
    destruct (IH (S t) _ Hinv') as [st' [Htr [Hinv2 Hlast]]].
    { intros i Hi. apply Hok. lia. }
    exists st'. split; [exact Htr|].
    replace (t + S k) with (S t + k) by lia. split; [exact Hinv2|].
    intros _. destruct k as [|k].
    + simpl in Htr. inversion Htr; subst st'.
      exists sel, score, tf. replace (S t + 0 - 1) with t by lia.
      split; [exact Hrun|]. destruct (improves _ _); reflexivity.
    + apply Hlast. lia.
Qed.

Lemma trials_err (e : py_error) (k : nat) : forall t st j,
  j < k ->
  (forall i, t <= i < t + j -> exists r, run i = Ok r) ->
  run (t + j) = Err e ->
  trials fwd rev nf nr draws k t st = Err e.
Proof.
  induction k as [|k IH]; intros t st j Hj Hok Herr; [lia|].
  simpl. destruct j as [|j].
  - rewrite Nat.add_0_r in Herr. unfold run in Herr. rewrite Herr. reflexivity.
  - destruct (Hok t ltac:(lia)) as [[[sel score] tf] Hrun].
    unfold run in Hrun. rewrite Hrun. cbn [bind].
    apply (IH (S t) _ j); [lia | intros i Hi; apply Hok; lia |].
    replace (S t + j) with (t + S j) by lia. exact Herr.
Qed.

End SearchProofs.

(** [total_frequencies[i] = forward_frequencies[i] + reverse_frequencies[i]]
    for [i] in [range(8)]: a table with fewer than 8 counters raises
    [IndexError]; otherwise the result has 8 counters and, when the
    counters have no repeated keys, each count is the sum of the two
    tables' counts at that position. *)
Theorem combine_frequencies_behaviour (ff rf : list FrequencyModel.counter) :
  ((List.length ff < 8 \/ List.length rf < 8) ->
   StochasticSelector.combine_frequencies ff rf = Err IndexError) /\
  (8 <= List.length ff -> 8 <= List.length rf ->
   Forall (fun c => NoDup (map fst c)) ff -> Forall (fun c => NoDup (map fst c)) rf ->
   exists tf, StochasticSelector.combine_frequencies ff rf = Ok tf /\ List.length tf = 8 /\
     forall p k, p < 8 ->
       FrequencyModel.counter_get (nth p tf []) k
       = FrequencyModel.counter_get (nth p ff []) k + FrequencyModel.counter_get (nth p rf []) k).
Proof.
  split; [apply combine_frequencies_short|].
  intros Hf Hr Hndf Hndr. rewrite Forall_forall in Hndf, Hndr.
  eexists. rewrite combine_frequencies_ok by assumption.
  split; [reflexivity | split; [now rewrite length_map, length_seq|]].
  intros p k Hp. rewrite nth_map_seq_counter by exact Hp.
  apply counter_add_get; [apply Hndf | apply Hndr]; apply nth_In; lia.
Qed.

(** One iteration of [select_optimal_primers] on pools of sequences of
    length 8, with at least one primer of each kind and a draw that
    [random.sample] can return: it succeeds; the selected dicts hold the
    drawn names in draw order with their pool sequences; the table has 8
    counters, counting each character at each position over the selected
    forward and reverse sequences together; the score is the diversity
    score of that table for [num_forward + num_reverse]. *)
Theorem trial_combined_table (fwd rev : dict string) (nf nr : nat)
  (d : StochasticSelector.draw) :
  Forall (fun s => String.length s = 8) (dict_values fwd) ->
  Forall (fun s => String.length s = 8) (dict_values rev) ->
  1 <= nf -> 1 <= nr -> StochasticSelector.valid_draw fwd rev nf nr d = true ->
  exists sf sr tf,
    StochasticSelector.trial fwd rev nf nr d =
      Ok ((sf, sr), FrequencyModel.calculate_diversity_score tf (Z.of_nat (nf + nr)), tf) /\
    dict_keys sf = fst d /\ dict_keys sr = snd d /\
    (forall k v, In (k, v) sf -> dict_get fwd k = Ok v) /\
    (forall k v, In (k, v) sr -> dict_get rev k = Ok v) /\
    List.length tf = 8 /\
    forall p k, p < 8 ->
      FrequencyModel.counter_get (nth p tf []) k
      = count_at p k (dict_values sf) + count_at p k (dict_values sr).
Proof. apply trial_valid. Qed.

Lemma trial_combined_table_witness :
  Forall (fun s => String.length s = 8) (dict_values Scenarios.fwd_two) /\
  Forall (fun s => String.length s = 8) (dict_values Scenarios.rev_two) /\
  StochasticSelector.valid_draw Scenarios.fwd_two Scenarios.rev_two 1 1
    (["F1"], ["R1"])%string = true /\
  exists r, StochasticSelector.trial Scenarios.fwd_two Scenarios.rev_two 1 1
              (["F1"], ["R1"])%string = Ok r.
Proof.
  assert (H1 : Forall (fun s => String.length s = 8) (dict_values Scenarios.fwd_two))
    by (repeat constructor).
  assert (H2 : Forall (fun s => String.length s = 8) (dict_values Scenarios.rev_two))
    by (repeat constructor).
  assert (H3 : StochasticSelector.valid_draw Scenarios.fwd_two Scenarios.rev_two 1 1
                 (["F1"], ["R1"])%string = true) by (vm_compute; reflexivity).
  split; [exact H1 | split; [exact H2 | split; [exact H3 |]]].
  destruct (trial_combined_table _ _ 1 1 _ H1 H2 (le_n 1) (le_n 1) H3)
    as [sf [sr [tf [Hrun _]]]].
  eexists. exact Hrun.
Defined.

(** [select_optimal_primers] on pools of sequences of length 8, with at
    least one primer of each kind and every iteration drawing what
    [random.sample] can return: it returns a best selection, its score and
    a table; the best selection and score are those of some iteration
    [t0]; no iteration scored lower; every iteration before [t0] scored
    strictly higher (the first minimum is kept); and the table is the one
    of the last iteration (9999). *)
Theorem select_optimal_primers_search (fwd rev : dict string) (nf nr : nat)
  (draws : nat -> StochasticSelector.draw) :
  Forall (fun s => String.length s = 8) (dict_values fwd) ->
  Forall (fun s => String.length s = 8) (dict_values rev) ->
  1 <= nf -> 1 <= nr ->
  (forall t, t < 10000 -> StochasticSelector.valid_draw fwd rev nf nr (draws t) = true) ->
  exists best score tf t0 tf0,
    StochasticSelector.select_optimal_primers fwd rev nf nr draws
      = Ok (Some best, Some score, Some tf) /\
    t0 < 10000 /\
    StochasticSelector.trial fwd rev nf nr (draws t0) = Ok (best, score, tf0) /\
    (forall t sel s tf', t < 10000 ->
       StochasticSelector.trial fwd rev nf nr (draws t) = Ok (sel, s, tf') -> (score <= s)%Q) /\
    (forall t sel s tf', t < t0 ->
       StochasticSelector.trial fwd rev nf nr (draws t) = Ok (sel, s, tf') -> (score < s)%Q) /\
    (exists sel s, StochasticSelector.trial fwd rev nf nr (draws 9999) = Ok (sel, s, tf)).
Proof.
  intros Hf8 Hr8 Hnf Hnr Hvalid.
  set (st0 := {| StochasticSelector.best_score := None;
                 StochasticSelector.best_combination := None;
                 StochasticSelector.last_total_frequencies := None |}).
  destruct (trials_inv fwd rev nf nr draws 10000 0 st0) as [st [Htr [Hinv Hlast]]].
  { left. split; [reflexivity | split; reflexivity]. }
  { intros i Hi. destruct (trial_valid fwd rev nf nr (draws i) Hf8 Hr8 Hnf Hnr
                             (Hvalid i ltac:(lia))) as [sf [sr [tf [Hrun _]]]].
    eexists. exact Hrun. }
  destruct Hinv as [[Habs _]|[t0 [best [score [tf0 [Ht0 [Hb [Hc [Hr0 [Hle Hlt]]]]]]]]]];
    [discriminate|].
  destruct (Hlast ltac:(lia)) as [sel [s [tf [Hr9 Htf]]]].
  exists best, score, tf, t0, tf0.
  split; [unfold StochasticSelector.select_optimal_primers; fold st0; rewrite Htr; simpl;
          rewrite Hb, Hc, Htf; reflexivity|].
  split; [exact Ht0|]. split; [exact Hr0|]. split; [exact Hle|]. split; [exact Hlt|].
  exists sel, s. exact Hr9.
Qed.

Lemma draws_first_best_valid (t : nat) :
  StochasticSelector.valid_draw Scenarios.fwd_two Scenarios.rev_two 1 1
    (Scenarios.draws_first_best t) = true.
Proof. unfold Scenarios.draws_first_best. destruct (Nat.eqb t 0); vm_compute; reflexivity. Qed.

Lemma select_optimal_primers_search_witness :
  Forall (fun s => String.length s = 8) (dict_values Scenarios.fwd_two) /\
  Forall (fun s => String.length s = 8) (dict_values Scenarios.rev_two) /\
  (forall t, t < 10000 -> StochasticSelector.valid_draw Scenarios.fwd_two Scenarios.rev_two 1 1
                            (Scenarios.draws_first_best t) = true) /\
  exists best score tf,
    StochasticSelector.select_optimal_primers Scenarios.fwd_two Scenarios.rev_two 1 1
      Scenarios.draws_first_best = Ok (Some best, Some score, Some tf).
Proof.
  assert (H1 : Forall (fun s => String.length s = 8) (dict_values Scenarios.fwd_two))
    by (repeat constructor).
  assert (H2 : Forall (fun s => String.length s = 8) (dict_values Scenarios.rev_two))
    by (repeat constructor).
  assert (H3 : forall t, t < 10000 ->
            StochasticSelector.valid_draw Scenarios.fwd_two Scenarios.rev_two 1 1
              (Scenarios.draws_first_best t) = true)
    by (intros t _; apply draws_first_best_valid).
  split; [exact H1 | split; [exact H2 | split; [exact H3 |]]].
  destruct (select_optimal_primers_search _ _ 1 1 _ H1 H2 (le_n 1) (le_n 1) H3)
    as [best [score [tf [_ [_ [Hsel _]]]]]].
  exists best, score, tf. exact Hsel.
Defined.

Lemma calculate_ok_or_index (n0 s0 : string) (rest : dict string) :
  (exists tbl, FrequencyModel.calculate_nucleotide_frequencies ((n0, s0) :: rest) = Ok tbl /\
     List.length tbl = String.length s0) \/
  FrequencyModel.calculate_nucleotide_frequencies ((n0, s0) :: rest) = Err IndexError.
Proof.
  destruct (Forall_Exists_dec (fun s => String.length s <= String.length s0)
              (fun s => le_dec _ _) (dict_values rest)) as [Hall|Hex].
  - left. destruct (calculate_ragged n0 s0 rest Hall) as [tbl [Hrun [Hl _]]].
    exists tbl. split; assumption.
  - right. rewrite calculate_cons. apply process_err. apply Exists_cons_tl.
    apply Exists_exists in Hex as [s [Hs Hlt]]. apply Exists_exists.
    exists s. split; [exact Hs|]. rewrite repeat_length. lia.
Qed.

Lemma trial_short_pool (fwd rev : dict string) (nf nr : nat) (d : StochasticSelector.draw) :
  Forall (fun s => String.length s < 8) (dict_values fwd) \/
  Forall (fun s => String.length s < 8) (dict_values rev) ->
  1 <= nf -> 1 <= nr -> StochasticSelector.valid_draw fwd rev nf nr d = true ->
  StochasticSelector.trial fwd rev nf nr d = Err IndexError.
Proof.
  intros Hshort Hnf Hnr Hv. unfold StochasticSelector.valid_draw in Hv.
  apply andb_true_iff in Hv as [Hf Hr].
  apply is_sample_spec in Hf as [Hlf Hinf]. apply is_sample_spec in Hr as [Hlr Hinr].
  destruct (select_keys_ok fwd (fst d) Hinf) as [sf [Hsf [Hkf Hpf]]].
  destruct (select_keys_ok rev (snd d) Hinr) as [sr [Hsr [Hkr Hpr]]].
  unfold StochasticSelector.trial. rewrite Hsf, Hsr. cbn [bind].
  destruct sf as [|[kf vf] sf].
  { unfold dict_keys in Hkf. simpl in Hkf. rewrite <- Hkf in Hlf. simpl in Hlf. lia. }
  destruct sr as [|[kr vr] sr].
  { unfold dict_keys in Hkr. simpl in Hkr. rewrite <- Hkr in Hlr. simpl in Hlr. lia. }
  assert (Hvf : In vf (dict_values fwd)).
  { apply (in_map snd fwd (kf, vf)), dict_get_ok_in, Hpf. left. reflexivity. }
  assert (Hvr : In vr (dict_values rev)).
  { apply (in_map snd rev (kr, vr)), dict_get_ok_in, Hpr. left. reflexivity. }
  destruct (calculate_ok_or_index kf vf sf) as [[tf [Hff Hlff]]|Hff]; rewrite Hff; cbn [bind];
    [|reflexivity].
  destruct (calculate_ok_or_index kr vr sr) as [[tr [Hrf Hlrf]]|Hrf]; rewrite Hrf; cbn [bind];
    [|reflexivity].
  rewrite combine_frequencies_short; [reflexivity|].
  destruct Hshort as [Hs|Hs]; rewrite Forall_forall in Hs;
    [left; rewrite Hlff | right; rewrite Hlrf]; apply Hs; assumption.
Qed.

(** When every forward sequence, or every reverse sequence, is shorter
    than 8 characters and at least one primer of each kind is drawn,
    [select_optimal_primers] raises [IndexError] in its first iteration:
    the frequency table of the short side has fewer than 8 counters (or
    the table cannot be built), and the loop over [range(8)] reads past
    its end. *)
Theorem select_optimal_primers_short_sequences (fwd rev : dict string) (nf nr : nat)
  (draws : nat -> StochasticSelector.draw) :
  Forall (fun s => String.length s < 8) (dict_values fwd) \/
  Forall (fun s => String.length s < 8) (dict_values rev) ->
  1 <= nf -> 1 <= nr -> StochasticSelector.valid_draw fwd rev nf nr (draws 0) = true ->
  StochasticSelector.select_optimal_primers fwd rev nf nr draws = Err IndexError.
Proof.
  intros Hshort Hnf Hnr Hv. unfold StochasticSelector.select_optimal_primers.
  rewrite (trials_err fwd rev nf nr draws IndexError 10000 0 _ 0); [reflexivity | | |].
  - apply Nat.ltb_lt. reflexivity.
  - intros i Hi. lia.
  - unfold run. apply trial_short_pool; assumption.
Qed.

Lemma select_optimal_primers_short_sequences_witness :
  StochasticSelector.select_optimal_primers [("F1", "ACGTAC")]%string Scenarios.rev_two 1 1
    (fun _ => (["F1"], ["R1"])%string) = Err IndexError.
Proof.
  apply select_optimal_primers_short_sequences.
  - left. repeat constructor.
  - apply le_n.
  - apply le_n.
  - vm_compute. reflexivity.
Defined.

(** Drawing zero forward primers ([random.sample(..., 0)] returns [[]])
    makes [calculate_nucleotide_frequencies] call [next] on an empty dict:
    [select_optimal_primers] raises [StopIteration]. *)
Theorem select_optimal_primers_zero_forward (fwd rev : dict string) (nr : nat)
  (draws : nat -> StochasticSelector.draw) :
  StochasticSelector.valid_draw fwd rev 0 nr (draws 0) = true ->
  StochasticSelector.select_optimal_primers fwd rev 0 nr draws = Err StopIteration.
Proof.
  intros Hv. unfold StochasticSelector.valid_draw in Hv.
  apply andb_true_iff in Hv as [Hf Hr]. apply is_sample_spec in Hf as [Hl _].
  apply is_sample_spec in Hr as [_ Hr].
  destruct (draws 0) as [fk rk] eqn:Hd. simpl in Hl, Hr.
  destruct fk; [|discriminate].
  destruct (select_keys_ok rev rk Hr) as [sr [Hsr _]].
  unfold StochasticSelector.select_optimal_primers.
  rewrite (trials_err fwd rev 0 nr draws StopIteration 10000 0 _ 0);
    [reflexivity|apply Nat.ltb_lt; reflexivity| |].
  - intros i Hi. lia.
  - unfold run, StochasticSelector.trial. rewrite Nat.add_0_r, Hd. cbn [fst snd].
    rewrite Hsr. reflexivity.
Qed.

Lemma select_optimal_primers_zero_forward_witness :
  StochasticSelector.valid_draw Scenarios.fwd_two Scenarios.rev_two 0 1
    ([], ["R1"])%string = true /\
  StochasticSelector.select_optimal_primers Scenarios.fwd_two Scenarios.rev_two 0 1
    (fun _ => ([], ["R1"])%string) = Err StopIteration.
Proof.
  assert (H : StochasticSelector.valid_draw Scenarios.fwd_two Scenarios.rev_two 0 1
                ([], ["R1"])%string = true) by (vm_compute; reflexivity).
  split; [exact H|].
  apply (select_optimal_primers_zero_forward _ _ 1 (fun _ => ([], ["R1"])%string) H).
Defined.

Section MatrixProofs.
Import FrequencyModel Reporter.

Lemma combine_map_self {A B : Type} (l : list A) (s : A -> B) :
  combine l (map s l) = map (fun x => (x, s x)) l.
Proof. induction l as [|x l IH]; simpl; [reflexivity | now rewrite IH]. Qed.

Lemma nth_result_ok {A : Type} (l : list A) (d : A) (i : nat) :
  i < List.length l -> nth_result l i = Ok (nth i l d).
Proof. intros Hi. unfold nth_result. now rewrite (nth_error_nth' l d). Qed.

Lemma nth_result_err {A : Type} (l : list A) (i : nat) :
  List.length l <= i -> nth_result l i = Err IndexError.
Proof. intros Hi. unfold nth_result. now rewrite (proj2 (nth_error_None l i) Hi). Qed.

Lemma nth_result_ok_or_index {A : Type} (l : list A) (i : nat) :
  (exists a, nth_result l i = Ok a) \/ nth_result l i = Err IndexError.
Proof.
  unfold nth_result. destruct (nth_error l i); [left; eexists; reflexivity | right; reflexivity].
Qed.

End MatrixProofs.

Section SizingExtraProofs.
Import Sizing.
Open Scope Z_scope.

Lemma counts_loop_within (k : nat) (n mf mr : Z) (a b : Z) :
  counts_loop k n mf mr = Some (a, b) -> a <= mf /\ b <= mr.
Proof.
  pose proof (counts_loop_spec k n mf mr) as H. intros Hk. rewrite Hk in H.
  destruct H as [i [_ [[[Heq [H1 H2]]|[Heq [H1 H2]]] _]]]; inversion Heq; subst; lia.
Qed.

Lemma ceil_div_pos (n i : Z) : 1 <= n -> 1 <= i -> 1 <= ceil_div n i.
Proof.
  intros Hn Hi. unfold ceil_div.
  apply Z.div_le_lower_bound; lia.
Qed.

Lemma counts_loop_no_capacity (k : nat) (n mf mr : Z) :
  1 <= n -> Z.min mf mr < 1 -> counts_loop k n mf mr = None.
Proof.
  intros Hn Hm. induction k as [|k IH]; [reflexivity|].
  rewrite counts_loop_S.
  pose proof (ceil_div_pos n (Z.of_nat (S k)) Hn ltac:(lia)) as Hc.
  destruct ((Z.of_nat (S k) <=? mf) && (ceil_div n (Z.of_nat (S k)) <=? mr)) eqn:E1.
  { apply andb_true_iff in E1 as [E1 E2]. apply Z.leb_le in E1, E2. lia. }
  destruct ((ceil_div n (Z.of_nat (S k)) <=? mf) && (Z.of_nat (S k) <=? mr)) eqn:E2.
  { apply andb_true_iff in E2 as [E2 E3]. apply Z.leb_le in E2, E3. lia. }
  exact IH.
Qed.

Lemma optimal_counts_fallback (n mf mr : Z) :
  1 <= n -> Z.min mf mr < 1 -> optimal_primer_counts n mf mr = (Z.min mf mr, Z.min mf mr).
Proof.
  intros Hn Hm. unfold optimal_primer_counts.
  rewrite counts_loop_no_capacity by assumption. reflexivity.
Qed.

End SizingExtraProofs.

(** [optimal_primer_counts] never returns more forward primers than
    [max_forwards] nor more reverse primers than [max_reverses], whatever
    [n] and the capacities (including zero or negative ones). *)
Theorem optimal_primer_counts_within_capacity (n max_forwards max_reverses : Z) :
  (fst (Sizing.optimal_primer_counts n max_forwards max_reverses) <= max_forwards /\
   snd (Sizing.optimal_primer_counts n max_forwards max_reverses) <= max_reverses)%Z.
Proof.
  unfold Sizing.optimal_primer_counts.
  destruct (Sizing.counts_loop _ n max_forwards max_reverses) as [[a b]|] eqn:Hl.
  - exact (counts_loop_within _ _ _ _ _ _ Hl).
  - simpl. lia.
Qed.

(** For [n >= 1], when one of the capacities is below 1 no [(i, ceil(n / i))]
    fits, and [optimal_primer_counts] falls through to
    [(min(max_forwards, max_reverses), min(max_forwards, max_reverses))]. *)
Theorem optimal_primer_counts_no_capacity (n max_forwards max_reverses : Z) :
  (1 <= n)%Z -> (Z.min max_forwards max_reverses < 1)%Z ->
  Sizing.optimal_primer_counts n max_forwards max_reverses
  = (Z.min max_forwards max_reverses, Z.min max_forwards max_reverses).
Proof.
  apply optimal_counts_fallback.
Qed.

Lemma optimal_primer_counts_no_capacity_witness :
  Sizing.optimal_primer_counts 60 0 10 = (0%Z, 0%Z).
Proof.
  exact (optimal_primer_counts_no_capacity 60 0 10 ltac:(lia) ltac:(lia)).
Defined.

(** [available_forwards] and [available_reverses] count every name of the
    used-pairs file, also names absent from the pools, so both can be
    negative; their product is then positive and the guard
    [num_new_samples > max_available_pairs] lets the run through with
    [min(available_forwards, available_reverses)] (a negative count) as the
    number of forward and of reverse primers to select. *)
Theorem selection_counts_negative_availability (fwd rev : dict string)
  (used : list (string * string)) (n : Z) :
  (1 <= n)%Z ->
  List.length fwd < List.length (App.used_forward_primers used) ->
  List.length rev < List.length (App.used_reverse_primers used) ->
  (n <= (Z.of_nat (List.length fwd) - Z.of_nat (List.length (App.used_forward_primers used)))
        * (Z.of_nat (List.length rev) - Z.of_nat (List.length (App.used_reverse_primers used))))%Z ->
  exists m, (m < 0)%Z /\ App.selection_counts fwd rev used n = Some (m, m).
Proof.
  intros Hn Hf Hr Hcap. unfold App.selection_counts.
  set (af := (Z.of_nat (List.length fwd) - Z.of_nat (List.length (App.used_forward_primers used)))%Z) in *.
  set (ar := (Z.of_nat (List.length rev) - Z.of_nat (List.length (App.used_reverse_primers used)))%Z) in *.
  exists (Z.min af ar). split; [unfold af, ar; lia|].
  destruct (af * ar <? n)%Z eqn:E; [apply Z.ltb_lt in E; lia|].
  rewrite optimal_counts_fallback by (unfold af, ar; lia). reflexivity.
Qed.

Lemma selection_counts_negative_availability_witness :
  App.selection_counts Scenarios.fwd_two Scenarios.rev_two
    [("X1", "Y1"); ("X2", "Y2"); ("X3", "Y3")]%string 1 = Some ((-1)%Z, (-1)%Z).
Proof.
  destruct (selection_counts_negative_availability Scenarios.fwd_two Scenarios.rev_two
              [("X1", "Y1"); ("X2", "Y2"); ("X3", "Y3")]%string 1
              ltac:(lia) ltac:(apply Nat.ltb_lt; vm_compute; reflexivity)
              ltac:(apply Nat.ltb_lt; vm_compute; reflexivity)
              ltac:(apply Z.leb_le; vm_compute; reflexivity)) as [m [Hm Hsel]].
  rewrite Hsel. f_equal. vm_compute in Hsel. inversion Hsel. reflexivity.
Defined.

Section ExactExtraProofs.
Import FrequencyModel ExactSelector.

Lemma mapM_all_ok {A B : Type} (f : A -> result B) (l : list A) :
  (forall x, In x l -> exists b, f x = Ok b) -> exists bs, mapM f l = Ok bs.
Proof.
  induction l as [|x l IH]; intros H; [exists []; reflexivity|].
  destruct (H x (or_introl eq_refl)) as [b Hb].
  destruct IH as [bs Hbs]; [intros y Hy; apply H; right; exact Hy|].
  exists (b :: bs). simpl. rewrite Hb, Hbs. reflexivity.
Qed.

Lemma mapM_ok_or {A B : Type} (f : A -> result B) (e : py_error) (l : list A) :
  (forall x, In x l -> (exists b, f x = Ok b) \/ f x = Err e) ->
  (exists bs, mapM f l = Ok bs) \/ mapM f l = Err e.
Proof.
  induction l as [|x l IH]; intros H; [left; exists []; reflexivity|].
  simpl. destruct (H x (or_introl eq_refl)) as [[b Hb]|Hb]; rewrite Hb; cbn [bind];
    [|right; reflexivity].
  destruct IH as [[bs Hbs]|Hbs]; [intros y Hy; apply H; right; exact Hy| |];
    rewrite Hbs; cbn [bind]; [left; eexists; reflexivity | right; reflexivity].
Qed.

Lemma count_expr_ok_or (mk : string -> var) (primers : dict string) (p : nat) (b : ascii) :
  (exists a, count_expr mk primers p b = Ok a) \/ count_expr mk primers p b = Err IndexError.
Proof.
  unfold count_expr.
  destruct (mapM_ok_or (fun kv : string * string =>
                          ch <- nth_result (chars (snd kv)) p;;
                          Ok (if Ascii.eqb ch b then [aff_var (mk (fst kv))] else []))
                       IndexError primers) as [[bs Hbs]|Hbs];
    [| |rewrite Hbs; right; reflexivity].
  - intros kv _. destruct (nth_result_ok_or_index (chars (snd kv)) p) as [[ch Hch]|Hch];
      rewrite Hch; cbn [bind]; [left; eexists; reflexivity | right; reflexivity].
  - rewrite Hbs. left. eexists. reflexivity.
Qed.

Lemma count_expr_long (mk : string -> var) (primers : dict string) (p : nat) (b : ascii) :
  (forall s, In s (dict_values primers) -> p < String.length s) ->
  exists a, count_expr mk primers p b = Ok a.
Proof.
  intros Hlen. unfold count_expr.
  destruct (mapM_all_ok (fun kv : string * string =>
                           ch <- nth_result (chars (snd kv)) p;;
                           Ok (if Ascii.eqb ch b then [aff_var (mk (fst kv))] else []))
                        primers) as [bs Hbs].
  - intros kv Hkv.
    rewrite (nth_result_ok _ Ascii.zero) by
      (rewrite chars_length; apply Hlen; apply in_map_iff; exists kv; auto).
    eexists. reflexivity.
  - rewrite Hbs. eexists. reflexivity.
Qed.

Lemma count_expr_short (mk : string -> var) (primers : dict string) (p : nat) (b : ascii) :
  (exists s, In s (dict_values primers) /\ String.length s <= p) ->
  count_expr mk primers p b = Err IndexError.
Proof.
  intros [s [Hs Hlen]]. unfold count_expr.
  rewrite (mapM_only_err _ IndexError); [reflexivity| |].
  - intros kv _. destruct (nth_result_ok_or_index (chars (snd kv)) p) as [[ch Hch]|Hch];
      rewrite Hch; cbn [bind]; [left; eexists; reflexivity | right; reflexivity].
  - apply in_map_iff in Hs as [kv [Hkv Hin]]. exists kv. split; [exact Hin|].
    rewrite nth_result_err by (rewrite chars_length; subst s; exact Hlen). reflexivity.
Qed.

Lemma in_positions_bases (pb : nat * ascii) : In pb positions_bases -> fst pb < 8.
Proof.
  destruct pb as [p b]. unfold positions_bases. intros H.
  apply in_prod_iff in H as [Hp _]. apply in_seq in Hp. simpl. lia.
Qed.

(** Evaluation of PuLP's affine expressions. *)
Definition term_sum (val : var -> Q) (l : list (Q * var)) : Q :=
  fold_right (fun cv acc => (fst cv * val (snd cv) + acc)%Q) 0%Q l.

Lemma eval_terms (val : var -> Q) (l : list (Q * var)) (c : Q) :
  (fold_right (fun cv acc => (fst cv * val (snd cv) + acc)%Q) c l == term_sum val l + c)%Q.
Proof.
  induction l as [|cv l IH]; unfold term_sum; simpl; [ring|].
  rewrite IH. unfold term_sum. ring.
Qed.

Lemma eval_aff_add (val : var -> Q) (a b : affine) :
  (eval_affine val (aff_add a b) == eval_affine val a + eval_affine val b)%Q.
Proof.
  unfold eval_affine, aff_add. simpl. rewrite fold_right_app.
  rewrite (eval_terms val (terms a)), (eval_terms val (terms b)),
    (eval_terms val (terms a) (constant a)), (eval_terms val (terms b) (constant b)).
  ring.
Qed.

Lemma eval_aff_neg (val : var -> Q) (a : affine) :
  (eval_affine val (aff_neg a) == - eval_affine val a)%Q.
Proof.
  unfold eval_affine, aff_neg. simpl. induction (terms a) as [|cv l IH]; simpl; [ring|].
  rewrite IH. ring.
Qed.

Lemma eval_aff_var (val : var -> Q) (v : var) : (eval_affine val (aff_var v) == val v)%Q.
Proof. unfold eval_affine, aff_var. simpl. ring. Qed.

Lemma eval_aff_fold (val : var -> Q) (l : list affine) : forall acc,
  (eval_affine val (fold_left aff_add l acc)
   == eval_affine val acc + fold_right (fun a s => eval_affine val a + s) 0 l)%Q.
Proof.
  induction l as [|a l IH]; intros acc; simpl; [ring|].
  rewrite IH, eval_aff_add. ring.
Qed.

Lemma eval_var_sum (val : var -> Q) (mk : string -> var) (ks : list string) :
  (eval_affine val (aff_sum (map (fun k => aff_var (mk k)) ks))
   == fold_right (fun k s => val (mk k) + s) 0 ks)%Q.
Proof.
  unfold aff_sum. rewrite eval_aff_fold. unfold eval_affine at 1. simpl.
  induction ks as [|k ks IH]; simpl; [ring|]. rewrite eval_aff_var.
  setoid_replace (0 + (val (mk k) + fold_right (fun a s => eval_affine val a + s) 0
                                        (map (fun k0 => aff_var (mk k0)) ks)))%Q
    with (val (mk k) + (0 + fold_right (fun a s => eval_affine val a + s) 0
                              (map (fun k0 => aff_var (mk k0)) ks)))%Q by ring.
  rewrite IH. reflexivity.
Qed.

Lemma binary_sum_count (val : var -> Q) (mk : string -> var) (ks : list string) :
  forallb (fun k => is_binary (val (mk k))) ks = true ->
  (fold_right (fun k s => val (mk k) + s) 0 ks
   == inject_Z (Z.of_nat (List.length (filter (fun k => Qeq_bool (val (mk k)) 1) ks))))%Q.
Proof.
  induction ks as [|k ks IH]; simpl; [reflexivity|].
  intros H. apply andb_true_iff in H as [Hk Hks]. rewrite (IH Hks).
  unfold is_binary in Hk. apply orb_true_iff in Hk.
  destruct (Qeq_bool (val (mk k)) 1) eqn:E1.
  - apply Qeq_bool_iff in E1. rewrite E1. simpl List.length.
    rewrite Nat2Z.inj_succ, <- Z.add_1_l, inject_Z_plus. reflexivity.
  - destruct Hk as [Hk|Hk]; [|rewrite Hk in E1; discriminate].
    apply Qeq_bool_iff in Hk. rewrite Hk. ring.
Qed.

Lemma holds_eq (val : var -> Q) (a : affine) (q : Q) :
  holdsb val (c_eq a (aff_const q)) = true -> (eval_affine val a == q)%Q.
Proof.
  unfold holdsb, c_eq. simpl. intros H. apply Qeq_bool_iff in H.
  unfold aff_sub in H. rewrite eval_aff_add, eval_aff_neg in H.
  unfold eval_affine at 2 in H. simpl in H. lra.
Qed.

Lemma selected_primers_report (mk : string -> var) (primers : dict string)
  (st : lp_status) (val : var -> Q) :
  selected_primers mk primers (report_of st val)
  = filter (fun k => Qeq_bool (val (mk k)) 1) (dict_keys primers).
Proof. reflexivity. Qed.

Lemma feasible_binary fwd rev prob val :
  feasibleb fwd rev prob val = true ->
  forallb (fun k => is_binary (val (FVar k))) (dict_keys fwd) = true /\
  forallb (fun k => is_binary (val (RVar k))) (dict_keys rev) = true.
Proof. unfold feasibleb. rewrite !andb_true_iff. tauto. Qed.

End ExactExtraProofs.

(** C4 (code bug): there is no [InfeasibleError]. With ten forward and ten
    reverse primers, a used-pairs sheet of eleven pairs naming primers of
    neither pool and one new sample, the availabilities are both [-1], the
    guard [num_new_samples > max_available_pairs] lets [1 <= 1] through and
    [optimal_primer_counts] asks for [-1] forward and [-1] reverse primers.
    The integer program is built, no assignment satisfies its cardinality
    constraints, and still, whatever [problem.solve()] reports (status and
    values), the exact selector raises nothing and returns the primers whose
    value is 1 as the selection. *)
Lemma exact_select_infeasible_returns_selection :
  App.selection_counts Scenarios.fwd_ten Scenarios.rev_ten Scenarios.used_foreign 1
    = Some ((-1)%Z, (-1)%Z) /\
  ExactSelector.build_problem Scenarios.fwd_ten Scenarios.rev_ten (-1) (-1)
    Scenarios.used_foreign = Ok Scenarios.prob_foreign /\
  (forall val, ExactSelector.feasibleb Scenarios.fwd_ten Scenarios.rev_ten
                 Scenarios.prob_foreign val = false) /\
  (forall rep, ExactSelector.exact_select Scenarios.fwd_ten Scenarios.rev_ten (-1) (-1)
                 Scenarios.used_foreign rep
               = Ok (ExactSelector.selected_primers ExactSelector.FVar Scenarios.fwd_ten rep,
                     ExactSelector.selected_primers ExactSelector.RVar Scenarios.rev_ten rep)).
Proof.
  assert (Hb : ExactSelector.build_problem Scenarios.fwd_ten Scenarios.rev_ten (-1) (-1)
                 Scenarios.used_foreign = Ok Scenarios.prob_foreign)
    by (vm_compute; reflexivity).
  split; [vm_compute; reflexivity | split; [exact Hb | split]].
  - intros val. destruct (ExactSelector.feasibleb _ _ _ val) eqn:Hf; [exfalso | reflexivity].
    destruct (feasible_binary _ _ _ _ Hf) as [Hbf _].
    destruct (build_problem_constraints _ _ _ _ _ _ Hb) as [d Hd].
    assert (Hcf := feasible_holds _ _ _ _
                     (ExactSelector.c_eq
                        (ExactSelector.aff_sum
                           (map (fun k => ExactSelector.aff_var (ExactSelector.FVar k))
                                (dict_keys Scenarios.fwd_ten)))
                        (ExactSelector.aff_const (inject_Z (-1)))) Hf
                     ltac:(rewrite Hd; apply in_or_app; right; left; reflexivity)).
    apply holds_eq in Hcf.
    rewrite eval_var_sum, (binary_sum_count val ExactSelector.FVar _ Hbf) in Hcf.
    apply (proj1 (inject_Z_injective _ _)) in Hcf. lia.
  - intros rep. unfold ExactSelector.exact_select. rewrite Hb. reflexivity.
Qed.

(** The integer program reads [seq[position]] for positions 0 to 7 of every
    sequence of both pools: it is built when all sequences have at least 8
    characters, and building it raises [IndexError] as soon as one sequence
    of either pool is shorter than 8. *)
Theorem build_problem_needs_eight (fwd rev : dict string) (nf nr : Z)
  (used : list (string * string)) :
  (Forall (fun s => 8 <= String.length s) (dict_values fwd) ->
   Forall (fun s => 8 <= String.length s) (dict_values rev) ->
   exists prob, ExactSelector.build_problem fwd rev nf nr used = Ok prob) /\
  (Exists (fun s => String.length s < 8) (dict_values fwd ++ dict_values rev) ->
   ExactSelector.build_problem fwd rev nf nr used = Err IndexError).
Proof.
  split.
  - intros Hf Hr. rewrite Forall_forall in Hf, Hr. unfold ExactSelector.build_problem.
    match goal with |- context [mapM ?f ?l] => destruct (mapM_all_ok f l) as [bs Hbs] end;
      [|rewrite Hbs; cbn [bind]; eexists; reflexivity].
    intros [p b] Hpb. apply in_positions_bases in Hpb. simpl in Hpb.
    destruct (count_expr_long ExactSelector.FVar fwd p b) as [a Ha];
      [intros s Hs; specialize (Hf s Hs); lia|].
    destruct (count_expr_long ExactSelector.RVar rev p b) as [a' Ha'];
      [intros s Hs; specialize (Hr s Hs); lia|].
    rewrite Ha, Ha'. cbn [bind]. eexists. reflexivity.
  - intros Hex. apply Exists_exists in Hex as [s [Hs Hlen]].
    unfold ExactSelector.build_problem.
    rewrite (mapM_only_err _ IndexError); [reflexivity| |].
    + intros [p b] _.
      destruct (count_expr_ok_or ExactSelector.FVar fwd p b) as [[a Ha]|Ha]; rewrite Ha;
        cbn [bind]; [|right; reflexivity].
      destruct (count_expr_ok_or ExactSelector.RVar rev p b) as [[a' Ha']|Ha']; rewrite Ha';
        cbn [bind]; [left; eexists; reflexivity | right; reflexivity].
    + exists (7, "A"%char). split.
      { unfold ExactSelector.positions_bases. apply in_prod; [apply in_seq; lia | left; reflexivity]. }
      apply in_app_or in Hs as [Hs|Hs].
      * rewrite count_expr_short by (exists s; split; [exact Hs | lia]). reflexivity.
      * destruct (count_expr_ok_or ExactSelector.FVar fwd 7 "A"%char) as [[a Ha]|Ha];
          rewrite Ha; cbn [bind]; [|reflexivity].
        rewrite count_expr_short by (exists s; split; [exact Hs | lia]). reflexivity.
Qed.

(** Every feasible assignment of the integer program selects exactly
    [num_forward_to_select] forward primers and [num_reverse_to_select]
    reverse primers: the lists [selected_forward_primers] and
    [selected_reverse_primers] extracted from it have these lengths (so no
    assignment is feasible when a requested count is negative). *)
Theorem exact_select_cardinality (fwd rev : dict string) (nf nr : Z)
  (used : list (string * string)) (prob : ExactSelector.lp_problem)
  (val : ExactSelector.var -> Q) (st : ExactSelector.lp_status) (sf sr : list string) :
  ExactSelector.build_problem fwd rev nf nr used = Ok prob ->
  ExactSelector.feasibleb fwd rev prob val = true ->
  ExactSelector.exact_select fwd rev nf nr used (ExactSelector.report_of st val) = Ok (sf, sr) ->
  Z.of_nat (List.length sf) = nf /\ Z.of_nat (List.length sr) = nr.
Proof.
  intros Hb Hfeas Hsel.
  unfold ExactSelector.exact_select in Hsel. rewrite Hb in Hsel. cbn [bind] in Hsel.
  inversion Hsel; subst sf sr; clear Hsel.
  rewrite !selected_primers_report.
  destruct (feasible_binary _ _ _ _ Hfeas) as [Hbf Hbr].
  destruct (build_problem_constraints _ _ _ _ _ _ Hb) as [d Hd].
  assert (Hcf := feasible_holds _ _ _ _
                   (ExactSelector.c_eq
                           (ExactSelector.aff_sum (map (fun k => ExactSelector.aff_var
                                                                   (ExactSelector.FVar k))
                                                       (dict_keys fwd)))
                           (ExactSelector.aff_const (inject_Z nf))) Hfeas
                   ltac:(rewrite Hd; apply in_or_app; right; left; reflexivity)).
  assert (Hcr := feasible_holds _ _ _ _
                   (ExactSelector.c_eq
                           (ExactSelector.aff_sum (map (fun k => ExactSelector.aff_var
                                                                   (ExactSelector.RVar k))
                                                       (dict_keys rev)))
                           (ExactSelector.aff_const (inject_Z nr))) Hfeas
                   ltac:(rewrite Hd; apply in_or_app; right; right; left; reflexivity)).
  apply holds_eq in Hcf, Hcr.
  rewrite eval_var_sum, (binary_sum_count val ExactSelector.FVar _ Hbf) in Hcf.
  rewrite eval_var_sum, (binary_sum_count val ExactSelector.RVar _ Hbr) in Hcr.
  split; [exact (proj1 (inject_Z_injective _ _) Hcf) | exact (proj1 (inject_Z_injective _ _) Hcr)].
Qed.

Lemma exact_select_cardinality_witness :
  ExactSelector.build_problem Scenarios.fwd_two Scenarios.rev_two 1 1 Scenarios.used_f1_r2
    = Ok Scenarios.prob_f1_r2 /\
  ExactSelector.feasibleb Scenarios.fwd_two Scenarios.rev_two Scenarios.prob_f1_r2
    Scenarios.val_f1_r1 = true /\
  ExactSelector.exact_select Scenarios.fwd_two Scenarios.rev_two 1 1 Scenarios.used_f1_r2
    (ExactSelector.report_of ExactSelector.Optimal Scenarios.val_f1_r1)
    = Ok (["F1"], ["R1"])%string /\
  Z.of_nat (List.length ["F1"]%string) = 1%Z.
Proof.
  assert (Hb : ExactSelector.build_problem Scenarios.fwd_two Scenarios.rev_two 1 1
                 Scenarios.used_f1_r2 = Ok Scenarios.prob_f1_r2)
    by (vm_compute; reflexivity).
  assert (Hf : ExactSelector.feasibleb Scenarios.fwd_two Scenarios.rev_two
                 Scenarios.prob_f1_r2 Scenarios.val_f1_r1 = true)
    by (vm_compute; reflexivity).
  assert (Hs : ExactSelector.exact_select Scenarios.fwd_two Scenarios.rev_two 1 1
                 Scenarios.used_f1_r2
                 (ExactSelector.report_of ExactSelector.Optimal Scenarios.val_f1_r1)
               = Ok (["F1"], ["R1"])%string)
    by (vm_compute; reflexivity).
  split; [exact Hb | split; [exact Hf | split; [exact Hs |]]].
  exact (proj1 (exact_select_cardinality _ _ 1 1 _ _ _ ExactSelector.Optimal _ _ Hb Hf Hs)).
Defined.

Section DeviationProofs.
Import FrequencyModel ExactSelector.

(** The primers of a pool whose variable the assignment sets to 1. *)
Definition chosen (val : var -> Q) (mk : string -> var) (primers : dict string) : dict string :=
  filter (fun kv => Qeq_bool (val (mk (fst kv))) 1) primers.

Lemma Forall2_in_left {A B : Type} (R : A -> B -> Prop) (l : list A) (l' : list B) (x : A) :
  Forall2 R l l' -> In x l -> exists y, In y l' /\ R x y.
Proof.
  induction 1 as [|a b l l' Hab _ IH]; intros Hx; [destruct Hx|].
  destruct Hx as [->|Hx]; [exists b; split; [left; reflexivity | exact Hab]|].
  destruct (IH Hx) as [y [Hy Hr]]. exists y. split; [right; exact Hy | exact Hr].
Qed.

Lemma affine_sum_shift (val : var -> Q) (l : list affine) (c : Q) :
  (fold_right (fun a s => eval_affine val a + s) c l
   == fold_right (fun a s => eval_affine val a + s) 0 l + c)%Q.
Proof. induction l as [|a l IH]; simpl; [ring | rewrite IH; ring]. Qed.

Lemma count_at_cons (p : nat) (b : ascii) (s : string) (vals : list string) :
  count_at p b (s :: vals) =
  (match nth_error (chars s) p with
   | Some ch => if Ascii.eqb ch b then 1 else 0
   | None => 0
   end) + count_at p b vals.
Proof. unfold count_at. simpl. destruct (nth_error (chars s) p) as [ch|]; [destruct (Ascii.eqb ch b)|]; reflexivity. Qed.

Lemma hits_sum (val : var -> Q) (mk : string -> var) (p : nat) (b : ascii)
  (primers : dict string) : forall hs,
  forallb (fun k => is_binary (val (mk k))) (dict_keys primers) = true ->
  mapM (fun kv : string * string =>
          ch <- nth_result (chars (snd kv)) p;;
          Ok (if Ascii.eqb ch b then [aff_var (mk (fst kv))] else [])) primers = Ok hs ->
  (fold_right (fun a s => eval_affine val a + s) 0 (List.concat hs)
   == inject_Z (Z.of_nat (count_at p b (dict_values (chosen val mk primers)))))%Q.
Proof.
  induction primers as [|[k s] rest IH]; intros hs Hbin Hm.
  - simpl in Hm. inversion Hm. reflexivity.
  - simpl in Hbin. apply andb_true_iff in Hbin as [Hk Hrest].
    simpl in Hm. unfold nth_result in Hm.
    destruct (nth_error (chars s) p) as [ch|] eqn:Hch; cbn [bind] in Hm; [|discriminate].
    destruct (mapM _ rest) as [hs'|e] eqn:Hrm; cbn [bind] in Hm; [|discriminate].
    inversion Hm; subst hs; clear Hm.
    simpl List.concat. rewrite fold_right_app, affine_sum_shift.
    rewrite (IH hs' Hrest eq_refl).
    unfold chosen. simpl filter. unfold is_binary in Hk.
    destruct (Qeq_bool (val (mk k)) 1) eqn:E.
    + apply Qeq_bool_iff in E. simpl dict_values. rewrite count_at_cons, Hch.
      destruct (Ascii.eqb ch b); cbn [fold_right].
      * rewrite eval_aff_var, E, Nat.add_1_l, Nat2Z.inj_succ, <- Z.add_1_l, inject_Z_plus.
        ring.
      * rewrite Nat.add_0_l. ring.
    + apply orb_true_iff in Hk as [Hk|Hk]; [|rewrite Hk in E; discriminate].
      apply Qeq_bool_iff in Hk.
      destruct (Ascii.eqb ch b); cbn [fold_right]; [rewrite eval_aff_var, Hk|]; ring.
Qed.

(** The number of chosen forward and reverse sequences with [b] at [p]:
    the [total_count] of the code, evaluated at a binary assignment. *)
Definition chosen_count (val : var -> Q) (fwd rev : dict string) (p : nat) (b : ascii) : nat :=
  count_at p b (dict_values (chosen val FVar fwd)) + count_at p b (dict_values (chosen val RVar rev)).

Lemma count_expr_eval (val : var -> Q) (mk : string -> var) (primers : dict string)
  (p : nat) (b : ascii) (a : affine) :
  forallb (fun k => is_binary (val (mk k))) (dict_keys primers) = true ->
  count_expr mk primers p b = Ok a ->
  (eval_affine val a == inject_Z (Z.of_nat (count_at p b (dict_values (chosen val mk primers)))))%Q.
Proof.
  intros Hbin. unfold count_expr.
  destruct (mapM _ primers) as [hs|e] eqn:Hm; cbn [bind]; intros H; inversion H; subst a.
  unfold aff_sum. rewrite eval_aff_fold. unfold eval_affine at 1. simpl.
  rewrite (hits_sum val mk p b primers hs Hbin Hm). ring.
Qed.

Lemma build_problem_distribution fwd rev nf nr used prob p b :
  build_problem fwd rev nf nr used = Ok prob -> In (p, b) positions_bases ->
  exists fc rc,
    count_expr FVar fwd p b = Ok fc /\ count_expr RVar rev p b = Ok rc /\
    In (c_ge (aff_var (DevVar p b))
             (aff_sub (aff_const (inject_Z (nf + nr) / 4)%Q) (aff_add fc rc)))
       (constraints prob) /\
    In (c_ge (aff_var (DevVar p b))
             (aff_sub (aff_add fc rc) (aff_const (inject_Z (nf + nr) / 4)%Q)))
       (constraints prob).
Proof.
  unfold build_problem. intros H Hpb.
  destruct (mapM _ positions_bases) as [dist|e] eqn:Hm; cbn [bind] in H; [|discriminate].
  inversion H; subst prob; clear H. cbn [constraints].
  apply mapM_ok_inv in Hm. destruct (Forall2_in_left _ _ _ _ Hm Hpb) as [y [Hy Hf]].
  cbv beta iota in Hf.
  destruct (count_expr FVar fwd p b) as [fc|e] eqn:Hfc; cbn [bind] in Hf; [|discriminate].
  destruct (count_expr RVar rev p b) as [rc|e] eqn:Hrc; cbn [bind] in Hf; [|discriminate].
  inversion Hf; subst y. exists fc, rc.
  split; [reflexivity | split; [reflexivity |]].
  split; apply in_or_app; left; apply in_concat; eexists; (split; [exact Hy|]);
    [left; reflexivity | right; left; reflexivity].
Qed.

Lemma build_problem_objective fwd rev nf nr used prob :
  build_problem fwd rev nf nr used = Ok prob ->
  objective prob = aff_sum (map (fun pb => aff_var (DevVar (fst pb) (snd pb))) positions_bases).
Proof.
  unfold build_problem. destruct (mapM _ positions_bases) as [dist|e]; cbn [bind];
    intros H; inversion H; reflexivity.
Qed.

Lemma holds_ge (val : var -> Q) (a b : affine) :
  holdsb val (c_ge a b) = true -> (eval_affine val b <= eval_affine val a)%Q.
Proof.
  unfold holdsb, c_ge. cbn [expr csense]. intros H. apply Qle_bool_iff in H.
  unfold aff_sub in H. rewrite eval_aff_add, eval_aff_neg in H. lra.
Qed.

Lemma eval_dev_sum (val : var -> Q) (l : list (nat * ascii)) :
  (eval_affine val (aff_sum (map (fun pb => aff_var (DevVar (fst pb) (snd pb))) l))
   == fold_right (fun pb s => val (DevVar (fst pb) (snd pb)) + s) 0 l)%Q.
Proof.
  unfold aff_sum. rewrite eval_aff_fold. unfold eval_affine at 1. simpl.
  induction l as [|pb l IH]; simpl; [ring|]. rewrite eval_aff_var.
  setoid_replace (0 + (val (DevVar (fst pb) (snd pb)) +
                       fold_right (fun a s => eval_affine val a + s) 0
                         (map (fun pb0 => aff_var (DevVar (fst pb0) (snd pb0))) l)))%Q
    with (val (DevVar (fst pb) (snd pb)) +
          (0 + fold_right (fun a s => eval_affine val a + s) 0
                 (map (fun pb0 => aff_var (DevVar (fst pb0) (snd pb0))) l)))%Q by ring.
  rewrite IH. reflexivity.
Qed.

Lemma fold_sum_le {A : Type} (f g : A -> Q) (l : list A) :
  (forall x, In x l -> f x <= g x)%Q ->
  (fold_right (fun x s => f x + s) 0 l <= fold_right (fun x s => g x + s) 0 l)%Q.
Proof.
  induction l as [|x l IH]; simpl; intros H; [lra|].
  assert (Hx := H x (or_introl eq_refl)).
  assert (Hl := IH (fun y Hy => H y (or_intror Hy))). lra.
Qed.

End DeviationProofs.

(** For every feasible assignment, each deviation variable
    [dev_{position}_{base}] is at least the distance between
    [ideal_count = (num_forward_to_select + num_reverse_to_select) / 4] and
    [total_count], the number of chosen forward and reverse sequences with
    [base] at [position]; so the objective, the [Total Deviation] shown to
    the user, is at least the sum of these distances over the 8 positions
    and the bases A, T, C, G. *)
Theorem exact_select_deviation_bound (fwd rev : dict string) (nf nr : Z)
  (used : list (string * string)) (prob : ExactSelector.lp_problem)
  (val : ExactSelector.var -> Q) :
  ExactSelector.build_problem fwd rev nf nr used = Ok prob ->
  ExactSelector.feasibleb fwd rev prob val = true ->
  (forall p b, p < 8 -> In b ExactSelector.bases ->
     (Qabs (inject_Z (nf + nr) / 4 - inject_Z (Z.of_nat (chosen_count val fwd rev p b)))
      <= val (ExactSelector.DevVar p b))%Q) /\
  (fold_right (fun pb s => Qabs (inject_Z (nf + nr) / 4
                                 - inject_Z (Z.of_nat (chosen_count val fwd rev (fst pb) (snd pb))))
                           + s)
              0 ExactSelector.positions_bases
   <= ExactSelector.eval_affine val (ExactSelector.objective prob))%Q.
Proof.
  intros Hb Hf. destruct (feasible_binary _ _ _ _ Hf) as [Hbf Hbr].
  assert (Hconst : forall q, ExactSelector.eval_affine val (ExactSelector.aff_const q) = q)
    by reflexivity.
  assert (Hpt : forall p b, In (p, b) ExactSelector.positions_bases ->
            (Qabs (inject_Z (nf + nr) / 4 - inject_Z (Z.of_nat (chosen_count val fwd rev p b)))
             <= val (ExactSelector.DevVar p b))%Q).
  { intros p b Hpb.
    destruct (build_problem_distribution _ _ _ _ _ _ _ _ Hb Hpb)
      as [fc [rc [Hfc [Hrc [H1 H2]]]]].
    apply (feasible_holds _ _ _ _ _ Hf), holds_ge in H1, H2.
    unfold ExactSelector.aff_sub in H1, H2.
    rewrite eval_aff_var, !eval_aff_add, eval_aff_neg, Hconst in H1, H2.
    rewrite ?eval_aff_add in H1, H2.
    rewrite (count_expr_eval _ _ _ _ _ _ Hbf Hfc), (count_expr_eval _ _ _ _ _ _ Hbr Hrc) in H1, H2.
    unfold chosen_count. rewrite Nat2Z.inj_add. rewrite !inject_Z_plus in *.
    apply Qabs_case; intros; lra. }
  split.
  - intros p b Hp Hbase. apply Hpt. unfold ExactSelector.positions_bases.
    apply in_prod; [apply in_seq; lia | exact Hbase].
  - rewrite (build_problem_objective _ _ _ _ _ _ Hb), eval_dev_sum.
    apply fold_sum_le. intros [p b] Hpb. apply Hpt. exact Hpb.
Qed.

Lemma exact_select_deviation_bound_witness :
  ExactSelector.build_problem Scenarios.fwd_two Scenarios.rev_two 1 1 Scenarios.used_f1_r2
    = Ok Scenarios.prob_f1_r2 /\
  ExactSelector.feasibleb Scenarios.fwd_two Scenarios.rev_two Scenarios.prob_f1_r2
    Scenarios.val_f1_r1 = true /\
  (Qabs (inject_Z (1 + 1) / 4
         - inject_Z (Z.of_nat (chosen_count Scenarios.val_f1_r1 Scenarios.fwd_two
                                 Scenarios.rev_two 0 "A"%char)))
   <= Scenarios.val_f1_r1 (ExactSelector.DevVar 0 "A"%char))%Q.
Proof.
  assert (Hb : ExactSelector.build_problem Scenarios.fwd_two Scenarios.rev_two 1 1
                 Scenarios.used_f1_r2 = Ok Scenarios.prob_f1_r2)
    by (vm_compute; reflexivity).
  assert (Hf : ExactSelector.feasibleb Scenarios.fwd_two Scenarios.rev_two
                 Scenarios.prob_f1_r2 Scenarios.val_f1_r1 = true)
    by (vm_compute; reflexivity).
  split; [exact Hb | split; [exact Hf |]].
  apply (proj1 (exact_select_deviation_bound _ _ 1 1 _ _ _ Hb Hf)); [lia | left; reflexivity].
Defined.
